(** * Phalcon storage adapters (APCu and Redis): a shallow embedding

    The development follows [Phalcon\Storage\Adapter\Apcu] and
    [Phalcon\Storage\Adapter\Redis].  PHP values are a small tagged union,
    the adapters are records, and every method is a computation in a
    state-and-exception monad over the backend and the list of fired
    notifications. *)

From stdpp Require Import gmap strings list.
From Stdlib Require Import ZArith Ascii String DecimalString.

Local Open Scope string_scope.
Local Open Scope Z_scope.

(** ** PHP values *)

#[local] Set Warnings "-register-all".

Inductive zval :=
| ZNull
| ZBool (b : bool)
| ZLong (n : Z)
| ZString (s : string)
| ZArray (items : list zval)
| ZObject (class : string).

(** [(bool) v], PHP's truthiness. *)
Definition to_bool (v : zval) : bool :=
  match v with
  | ZNull => false
  | ZBool b => b
  | ZLong n => negb (n =? 0)
  | ZString s => negb (String.eqb s "" || String.eqb s "0")
  | ZArray items => match items with [] => false | _ => true end
  | ZObject _ => true
  end.

(** [empty(v)] on a defined variable. *)
Definition php_empty (v : zval) : bool := negb (to_bool v).

(** [typeof v === "bool" ? v : false], also written [is_bool(v) ? v : false]. *)
Definition bool_or_false (v : zval) : bool :=
  match v with
  | ZBool b => b
  | _ => false
  end.

(** [true !== v] *)
Definition not_identical_true (v : zval) : bool :=
  match v with
  | ZBool true => false
  | _ => true
  end.

(** [strtolower] on ASCII letters. *)
Definition lower_ascii (c : ascii) : ascii :=
  let n := nat_of_ascii c in
  if ((65 <=? n) && (n <=? 90))%nat then ascii_of_nat (n + 32) else c.

Fixpoint strtolower (s : string) : string :=
  match s with
  | EmptyString => EmptyString
  | String c rest => String (lower_ascii c) (strtolower rest)
  end.

(** Zephir's [starts_with(subject, start)]. *)
Fixpoint starts_with (subject start : string) {struct start} : bool :=
  match start, subject with
  | EmptyString, _ => true
  | String _ _, EmptyString => false
  | String c start', String d subject' =>
      Ascii.eqb c d && starts_with subject' start'
  end.

(** Whether [needle] occurs somewhere in [haystack]. *)
Fixpoint contains (haystack needle : string) : bool :=
  starts_with haystack needle ||
  match haystack with
  | EmptyString => false
  | String _ rest => contains rest needle
  end.

(** Decimal rendering of an integer, as [sprintf("%s", n)] prints it. *)
Definition string_of_long (n : Z) : string :=
  NilZero.string_of_int (Z.to_int n).

(** ** Exceptions, notifications and the monad of adapter methods *)

Inductive Exn :=
| StorageException (msg : string)
| SupportException (msg : string)
| RedisException (msg : string).

Definition is_storage_exception (e : Exn) : bool :=
  match e with
  | StorageException _ => true
  | _ => false
  end.

Definition exn_message (e : Exn) : string :=
  match e with
  | StorageException m | SupportException m | RedisException m => m
  end.

(** A notification: the event name and the key handed to [fire]. *)
Definition Event : Type := string * string.

Record World (S : Type) := mkWorld {
  backend : S;
  fired : list Event
}.
Arguments mkWorld {S} _ _.
Arguments backend {S} _.
Arguments fired {S} _.

(** [Unmodelled] is the outcome of a backend call whose argument lies
    outside the part of the backend this development describes (a regular
    expression using more than literals and the dot). *)
Inductive Outcome (S A : Type) :=
| Ok (a : A) (w : World S)
| Throw (e : Exn) (w : World S)
| Unmodelled.
Arguments Ok {S A} _ _.
Arguments Throw {S A} _ _.
Arguments Unmodelled {S A}.

Definition M (S A : Type) : Type := World S -> Outcome S A.

Definition ret {S A} (a : A) : M S A := fun w => Ok a w.

Definition bind {S A B} (m : M S A) (k : A -> M S B) : M S B :=
  fun w =>
    match m w with
    | Ok a w' => k a w'
    | Throw e w' => Throw e w'
    | Unmodelled => Unmodelled
    end.

Definition throw {S A} (e : Exn) : M S A := fun w => Throw e w.

Definition try_catch {S A} (m : M S A) (handler : Exn -> M S A) : M S A :=
  fun w =>
    match m w with
    | Ok a w' => Ok a w'
    | Throw e w' => handler e w'
    | Unmodelled => Unmodelled
    end.

Definition get_backend {S} : M S S := fun w => Ok (backend w) w.

Definition put_backend {S} (s : S) : M S unit :=
  fun w => Ok tt (mkWorld s (fired w)).

(** What a computation returned, if it returned. *)
Definition result_of {S A} (o : Outcome S A) : option A :=
  match o with
  | Ok a _ => Some a
  | _ => None
  end.

(** The backend a computation left behind, if it returned. *)
Definition backend_after {S A} (o : Outcome S A) : option S :=
  match o with
  | Ok _ w => Some (backend w)
  | _ => None
  end.

(** The notifications on record when a computation returned or raised. *)
Definition events_of {S A} (o : Outcome S A) : option (list Event) :=
  match o with
  | Ok _ w | Throw _ w => Some (fired w)
  | Unmodelled => None
  end.

(** What a computation raised, if it raised. *)
Definition raised_by {S A} (o : Outcome S A) : option Exn :=
  match o with
  | Throw e _ => Some e
  | _ => None
  end.

Declare Scope adapter_scope.
Delimit Scope adapter_scope with adapter.
Notation "x <- c ;; k" := (bind c (fun x => k))
  (at level 100, c at next level, right associativity) : adapter_scope.
Notation "c ;; k" := (bind c (fun _ => k))
  (at level 100, right associativity) : adapter_scope.
Local Open Scope adapter_scope.

(** ** The pieces of [AbstractAdapter] the two adapters rely on *)

Record Serializer := mkSerializer {
  serialize : zval -> zval;
  unserialize : zval -> zval
}.

(** The no-op serializer: the value is its own wire form. *)
Definition NoneSerializer : Serializer := mkSerializer (fun v => v) (fun v => v).

Record DateInterval := mkInterval {
  days : Z; hours : Z; minutes : Z; secs : Z;
  invert : bool
}.

Inductive Ttl :=
| TtlNull
| TtlInt (seconds : Z)
| TtlInterval (interval : DateInterval).

Record AbstractAdapter := mkAdapter {
  prefix : string;
  lifetime : Z;
  defaultSerializer : string;
  serializer : Serializer;
  serializerFactory : string -> option Serializer;
  eventType : string
}.

(** Modelled from the spec: [AbstractAdapter::fire] is not among the
    sources.  A notification carries the event name and the key; the
    record of what was fired is kept in the world, in firing order. *)
Definition fire {S} (eventName key : string) : M S unit :=
  fun w => Ok tt (mkWorld (backend w) (fired w ++ [(eventName, key)])).

(** Modelled from the spec: [AbstractAdapter::getPrefixedKey] is not among
    the sources.  PrefixedKey = prefix + rawKey. *)
Definition getPrefixedKey (this : AbstractAdapter) (key : string) : string :=
  prefix this ++ key.

(** Seconds spanned by an interval counted from the epoch, in UTC.  Only
    day, hour, minute and second components are carried: month and year
    components would need the calendar. *)
Definition interval_seconds (di : DateInterval) : Z :=
  let n := days di * 86400 + hours di * 3600 + minutes di * 60 + secs di in
  if invert di then - n else n.

(** Modelled from the spec: [AbstractAdapter::getTtl] is not among the
    sources.  Absent means the adapter default, an integer is a number of
    seconds, a duration is resolved to seconds. *)
Definition getTtl (this : AbstractAdapter) (ttl : Ttl) : Z :=
  match ttl with
  | TtlNull => lifetime this
  | TtlInt n => n
  | TtlInterval di => interval_seconds di
  end.

(** Modelled from the spec: [AbstractAdapter::getSerializedData] and
    [getUnserializedData] are not among the sources.  The core serializer
    does the work unless it has been bypassed (an empty default serializer
    name), in which case the value passes through untouched. *)
Definition getSerializedData (this : AbstractAdapter) (content : zval) : zval :=
  if String.eqb (defaultSerializer this) "" then content
  else serialize (serializer this) content.

Definition getUnserializedData (this : AbstractAdapter) (content : zval) : zval :=
  if String.eqb (defaultSerializer this) "" then content
  else unserialize (serializer this) content.

(** The guard both adapters put in front of storing:
    [typeof ttl === "integer" && ttl < 1]. *)
Definition ttl_is_expired_integer (ttl : Ttl) : bool :=
  match ttl with
  | TtlInt n => n <? 1
  | _ => false
  end.

(** ** The APCu extension

    The user cache is a finite map from stored keys to entries.  All calls
    of one run happen at the same instant, before any positive time-to-live
    has elapsed, so a stored entry is live; a time-to-live of [0] means that
    the entry never expires. *)

Record ApcuEntry := mkEntry {
  entry_value : zval;
  entry_ttl : Z
}.

Abbreviation ApcuCache := (gmap string ApcuEntry).

(** [apcu_store(key, payload, ttl)] *)
Definition apcu_store (key : string) (payload : zval) (ttl : Z) : M ApcuCache zval :=
  cache <- get_backend ;;
  put_backend (<[key := mkEntry payload ttl]> cache) ;;
  ret (ZBool true).

(** [apcu_delete(key)]: true when an entry was removed, false when there
    was none. *)
Definition apcu_delete (key : string) : M ApcuCache zval :=
  cache <- get_backend ;;
  match cache !! key with
  | Some _ => put_backend (base.delete key cache) ;; ret (ZBool true)
  | None => ret (ZBool false)
  end.

(** [apcu_exists(key)] *)
Definition apcu_exists (key : string) : M ApcuCache zval :=
  cache <- get_backend ;;
  ret (ZBool (bool_decide (is_Some (cache !! key)))).

(** [apcu_fetch(key)]: the stored value, or false. *)
Definition apcu_fetch (key : string) : M ApcuCache zval :=
  cache <- get_backend ;;
  ret (match cache !! key with
       | Some e => entry_value e
       | None => ZBool false
       end).

(** Signed 64-bit wrap-around of [zend_long] arithmetic. *)
Definition wrap64 (n : Z) : Z :=
  (n + 2 ^ 63) mod 2 ^ 64 - 2 ^ 63.

(** [apcu_inc(key, step)]: a missing entry is created holding [step], an
    integer entry is advanced, anything else fails. *)
Definition apcu_inc (key : string) (step : Z) : M ApcuCache zval :=
  cache <- get_backend ;;
  match cache !! key with
  | None => put_backend (<[key := mkEntry (ZLong step) 0]> cache) ;; ret (ZLong step)
  | Some (mkEntry (ZLong n) ttl) =>
      let n' := wrap64 (n + step) in
      put_backend (<[key := mkEntry (ZLong n') ttl]> cache) ;; ret (ZLong n')
  | Some _ => ret (ZBool false)
  end.

(** [apcu_dec(key, step)] *)
Definition apcu_dec (key : string) (step : Z) : M ApcuCache zval :=
  apcu_inc key (wrap64 (- step)).

(** *** Regular expressions handed to [APCUIterator]

    [APCUIterator] takes a PCRE pattern with delimiters.  The patterns
    described here are [/^body/] where every character of [body] is either
    the dot, which matches any character but a line feed, or a character
    with no special meaning, which matches itself. *)

Inductive atom :=
| AnyChar
| Lit (c : ascii).

Definition pcre_special (c : ascii) : bool :=
  existsb (Ascii.eqb c)
    ["\"; "^"; "$"; "."; "["; "]"; "|"; "("; ")"; "?"; "*"; "+"; "{"; "}"; "/"]%char.

Fixpoint pcre_body (body : string) : option (list atom) :=
  match body with
  | EmptyString => None
  | String c rest =>
      if Ascii.eqb c "/" then
        match rest with EmptyString => Some [] | _ => None end
      else if Ascii.eqb c "." then
        option_map (cons AnyChar) (pcre_body rest)
      else if pcre_special c then None
      else option_map (cons (Lit c)) (pcre_body rest)
  end.

Definition pcre_compile (pattern : string) : option (list atom) :=
  match pattern with
  | String "/" (String "^" body) => pcre_body body
  | _ => None
  end.

Definition atom_matches (a : atom) (c : ascii) : bool :=
  match a with
  | AnyChar => negb (Ascii.eqb c "010")
  | Lit x => Ascii.eqb x c
  end.

(** Match of an anchored pattern at the start of the subject. *)
Fixpoint pcre_match (re : list atom) (subject : string) : bool :=
  match re, subject with
  | [], _ => true
  | _ :: _, EmptyString => false
  | a :: re', String c subject' => atom_matches a c && pcre_match re' subject'
  end.

(** A string without any character that is special in a pattern. *)
Fixpoint pcre_plain (text : string) : bool :=
  match text with
  | EmptyString => true
  | String c rest => negb (pcre_special c) && pcre_plain rest
  end.

(** What [new APCUIterator(pattern)] enumerates: the entries whose key
    matches, each item carrying its key and value.  The order is the
    cache's own. *)
Definition apcu_iterator_items (re : list atom) (cache : ApcuCache)
  : list (string * ApcuEntry) :=
  filter (fun item => pcre_match re item.1 = true) (map_to_list cache).

Inductive IteratorResult :=
| IteratorObject (items : list (string * ApcuEntry))
| NotAnObject (v : zval).

(** ** [Phalcon\Storage\Adapter\Apcu] *)

Module Apcu.

(** The class default of [protected prefix]. *)
Definition default_prefix : string := "ph-apcu-".

Definition phpApcuDec (key : string) (step : Z) : M ApcuCache zval :=
  apcu_dec key step.

Definition phpApcuDelete (key : string) : M ApcuCache zval :=
  apcu_delete key.

Definition phpApcuExists (key : string) : M ApcuCache zval :=
  apcu_exists key.

Definition phpApcuInc (key : string) (step : Z) : M ApcuCache zval :=
  apcu_inc key step.

Definition phpApcuFetch (key : string) : M ApcuCache zval :=
  apcu_fetch key.

Definition phpApcuIterator (pattern : string) : M ApcuCache IteratorResult :=
  match pcre_compile pattern with
  | Some re =>
      cache <- get_backend ;;
      ret (IteratorObject (apcu_iterator_items re cache))
  | None => fun _ => Unmodelled
  end.

Definition phpApcuStore (key : string) (payload : zval) (ttl : Z) : M ApcuCache zval :=
  apcu_store key payload ttl.

(** The loop of [clear]: one [phpApcuDelete] per item, the result
    dropping to false as soon as one of them is not [true]. *)
Fixpoint clear_loop (items : list (string * ApcuEntry)) (result : bool)
  : M ApcuCache bool :=
  match items with
  | [] => ret result
  | item :: rest =>
      r <- phpApcuDelete item.1 ;;
      clear_loop rest (if not_identical_true r then false else result)
  end.

Definition clear (this : AbstractAdapter) : M ApcuCache bool :=
  let pattern := "/^" ++ prefix this ++ "/" in
  apc <- phpApcuIterator pattern ;;
  match apc with
  | NotAnObject _ => ret false
  | IteratorObject items => clear_loop items true
  end.

Definition decrement (this : AbstractAdapter) (key : string) (value : Z)
  : M ApcuCache zval :=
  fire (eventType this ++ ":beforeDecrement") key ;;
  result <- phpApcuDec (getPrefixedKey this key) value ;;
  fire (eventType this ++ ":afterDecrement") key ;;
  ret result.

Definition delete (this : AbstractAdapter) (key : string) : M ApcuCache bool :=
  fire (eventType this ++ ":beforeDelete") key ;;
  r <- phpApcuDelete (getPrefixedKey this key) ;;
  let result := to_bool r in
  fire (eventType this ++ ":afterDelete") key ;;
  ret result.

Definition getKeys (this : AbstractAdapter) (prefix' : string)
  : M ApcuCache (list string) :=
  let pattern := "/^" ++ prefix this ++ prefix' ++ "/" in
  apc <- phpApcuIterator pattern ;;
  match apc with
  | NotAnObject _ => ret []
  | IteratorObject items => ret (items.*1)
  end.

Definition has (this : AbstractAdapter) (key : string) : M ApcuCache bool :=
  fire (eventType this ++ ":beforeHas") key ;;
  result <- phpApcuExists (getPrefixedKey this key) ;;
  fire (eventType this ++ ":afterHas") key ;;
  ret (bool_or_false result).

Definition increment (this : AbstractAdapter) (key : string) (value : Z)
  : M ApcuCache zval :=
  fire (eventType this ++ ":beforeIncrement") key ;;
  result <- phpApcuInc (getPrefixedKey this key) value ;;
  fire (eventType this ++ ":afterIncrement") key ;;
  ret result.

Definition set (this : AbstractAdapter) (key : string) (value : zval) (ttl : Ttl)
  : M ApcuCache bool :=
  fire (eventType this ++ ":beforeSet") key ;;
  if ttl_is_expired_integer ttl then
    result <- delete this key ;;
    fire (eventType this ++ ":afterSet") key ;;
    ret result
  else
    result <- phpApcuStore (getPrefixedKey this key)
                           (getSerializedData this value)
                           (getTtl this ttl) ;;
    fire (eventType this ++ ":afterSet") key ;;
    ret (bool_or_false result).

Definition setForever (this : AbstractAdapter) (key : string) (value : zval)
  : M ApcuCache bool :=
  result <- phpApcuStore (getPrefixedKey this key)
                         (getSerializedData this value)
                         0 ;;
  ret (bool_or_false result).

Definition doGet (this : AbstractAdapter) (key : string) : M ApcuCache zval :=
  phpApcuFetch (getPrefixedKey this key).

(** Modelled from the spec: [AbstractAdapter::get] is not among the
    sources.  [get] yields the deserialized value of a live entry, and
    the caller's default on a miss; it is announced by the [beforeGet]
    and [afterGet] notifications. *)
Definition get (this : AbstractAdapter) (key : string) (defaultValue : zval)
  : M ApcuCache zval :=
  fire (eventType this ++ ":beforeGet") key ;;
  present <- phpApcuExists (getPrefixedKey this key) ;;
  if bool_or_false present then
    content <- doGet this key ;;
    fire (eventType this ++ ":afterGet") key ;;
    ret (getUnserializedData this content)
  else
    fire (eventType this ++ ":afterGet") key ;;
    ret defaultValue.

End Apcu.

(** ** The phpredis client

    The extension is foreign code: the adapter is described against an
    interface.  A call either returns a value or raises a [RedisException],
    and may change the server.  Options set on the connection object
    ([OPT_PREFIX], [OPT_SERIALIZER]) live in the handle. *)

Inductive Result :=
| Returns (v : zval)
| Raises (msg : string).

Inductive RedisSerializer :=
| SERIALIZER_NONE
| SERIALIZER_PHP
| SERIALIZER_IGBINARY
| SERIALIZER_MSGPACK
| SERIALIZER_JSON.

Record Connection := mkConnection {
  opt_prefix : string;
  opt_serializer : RedisSerializer
}.

(** [new \Redis()] *)
Definition new_Redis : Connection := mkConnection "" SERIALIZER_NONE.

Class PhpRedis (R : Type) := {
  (** [connect] or [pconnect], by name, with the seven arguments of
      [checkConnect]. *)
  redis_connect :
    Connection -> string -> string -> Z -> zval -> option string -> zval -> zval ->
    list (string * zval) -> R -> Result * R;
  redis_auth : Connection -> zval -> R -> Result * R;
  redis_select : Connection -> Z -> R -> Result * R;
  redis_flushDB : Connection -> R -> Result * R;
  redis_del : Connection -> string -> R -> Result * R;
  redis_exists : Connection -> string -> R -> Result * R;
  redis_set : Connection -> string -> zval -> option Z -> R -> Result * R;
  redis_incrBy : Connection -> string -> Z -> R -> Result * R;
  redis_decrBy : Connection -> string -> Z -> R -> Result * R;
  (** [defined("\\Redis::SERIALIZER_...")] for the three optional codecs. *)
  igbinary_defined : bool;
  msgpack_defined : bool;
  json_defined : bool
}.

Record RedisOptions := mkOptions {
  host : string;
  port : Z;
  index : Z;
  timeout : zval;
  persistent : bool;
  persistentId : string;
  auth : zval;
  socket : string;
  connectTimeout : zval;
  retryInterval : zval;
  readTimeout : zval;
  ssl : zval
}.

(** The defaults the constructor fills in. *)
Definition default_options : RedisOptions :=
  mkOptions "127.0.0.1" 6379 0 (ZLong 0) false "" (ZArray []) ""
            (ZLong 0) (ZLong 0) (ZLong 0) (ZArray []).

(** The adapter object: the inherited fields, its options and the lazily
    created connection ([this->adapter], [null] until first use). *)
Record RedisAdapter := mkRedis {
  base : AbstractAdapter;
  options : RedisOptions;
  adapter : option Connection
}.

Record RedisState (R : Type) := mkState {
  self : RedisAdapter;
  server : R
}.
Arguments mkState {R} _ _.
Arguments self {R} _.
Arguments server {R} _.

Definition with_defaultSerializer (a : AbstractAdapter) (name : string) : AbstractAdapter :=
  mkAdapter (prefix a) (lifetime a) name (serializer a) (serializerFactory a) (eventType a).

Definition with_serializer (a : AbstractAdapter) (sz : Serializer) : AbstractAdapter :=
  mkAdapter (prefix a) (lifetime a) (defaultSerializer a) sz (serializerFactory a) (eventType a).

(** Modelled from the spec: [AbstractAdapter::initSerializer] is not among
    the sources.  The factory resolves a serializer by name and rejects
    unknown names; nothing is resolved when the core serializer is
    bypassed. *)
Definition initSerializer (a : AbstractAdapter) : Exn + AbstractAdapter :=
  if String.eqb (defaultSerializer a) "" then inr a
  else
    match serializerFactory a (strtolower (defaultSerializer a)) with
    | Some sz => inr (with_serializer a sz)
    | None => inl (SupportException "Service is not registered")
    end.

(** The same world with another server state, or another adapter object. *)
Definition with_server {R} (w : World (RedisState R)) (srv : R) : World (RedisState R) :=
  mkWorld (mkState (self (backend w)) srv) (fired w).

Definition with_self {R} (w : World (RedisState R)) (a : RedisAdapter)
  : World (RedisState R) :=
  mkWorld (mkState a (server (backend w))) (fired w).

(** The same world with more notifications on record. *)
Definition with_fired {S} (w : World S) (more : list Event) : World S :=
  mkWorld (backend w) (fired w ++ more).

Module Redis.

Definition default_prefix : string := "ph-reds-".

(** The constructor stores the options and opens nothing. *)
Definition construct (parent : AbstractAdapter) (opts : RedisOptions) : RedisAdapter :=
  mkRedis parent opts None.

Section Client.
Context {R : Type} `{PhpRedis R}.

Abbreviation St := (RedisState R).

Definition this : M St RedisAdapter :=
  fun w => Ok (self (backend w)) w.

Definition set_this (a : RedisAdapter) : M St unit :=
  fun w => Ok tt (mkWorld (mkState a (server (backend w))) (fired w)).

(** A client call: its return value, or the exception it raised. *)
Definition call (f : R -> Result * R) : M St zval :=
  fun w =>
    let '(r, srv) := f (server (backend w)) in
    let w' := mkWorld (mkState (self (backend w)) srv) (fired w) in
    match r with
    | Returns v => Ok v w'
    | Raises msg => Throw (RedisException msg) w'
    end.

Definition checkAuth (connection : Connection) : M St unit :=
  a <- this ;;
  let auth := auth (options a) in
  error <- try_catch
             (if negb (php_empty auth) then
                r <- call (redis_auth connection auth) ;;
                ret (not_identical_true r)
              else ret false)
             (fun _ => ret true) ;;
  if error : bool then
    throw (StorageException "Failed to authenticate with the Redis server")
  else ret tt.

Definition checkConnect (connection : Connection) : M St unit :=
  try_catch
    (a <- this ;;
     let options := options a in
     let host := host options in
     let port := port options in
     let timeout := timeout options in
     let retryInterval := retryInterval options in
     let readTimeout := readTimeout options in
     let auth := auth options in
     let ssl := ssl options in
     let connectionOptions :=
       ((if negb (php_empty auth) then [("auth", auth)] else []) ++
        (if negb (php_empty ssl) then [("stream", ssl)] else []))%list in
     let '(method, parameter) :=
       if negb (persistent options) then ("connect", None)
       else
         let persistentId := persistentId options in
         ("pconnect",
          Some (if negb (php_empty (ZString persistentId)) then persistentId
                else "persistentId" ++ string_of_long (index options))) in
     result <- call (redis_connect connection method host port timeout parameter
                                   retryInterval readTimeout connectionOptions) ;;
     if negb (to_bool result) then
       throw (StorageException
                ("Could not connect to the Redisd server [" ++ host ++ ":"
                   ++ string_of_long port ++ "]"))
     else ret tt)
    (fun ex => throw (StorageException (exn_message ex))).

Definition checkIndex (connection : Connection) : M St unit :=
  a <- this ;;
  let index := index (options a) in
  if 0 <? index then
    r <- call (redis_select connection index) ;;
    if not_identical_true r then
      throw (StorageException "Redis server selected database failed")
    else ret tt
  else ret tt.

(** The table of [setSerializer]: names of the codecs this build of
    the client offers. *)
Definition serializer_map : gmap string RedisSerializer :=
  let map : gmap string RedisSerializer :=
    <["redis_php" := SERIALIZER_PHP]> (<["redis_none" := SERIALIZER_NONE]> ∅) in
  let map := if igbinary_defined then <["redis_igbinary" := SERIALIZER_IGBINARY]> map else map in
  let map := if msgpack_defined then <["redis_msgpack" := SERIALIZER_MSGPACK]> map else map in
  if json_defined then <["redis_json" := SERIALIZER_JSON]> map else map.

Definition setSerializer (connection : Connection) : M St Connection :=
  a <- this ;;
  let serializer := strtolower (defaultSerializer (base a)) in
  updated <-
    match serializer_map !! serializer with
    | Some code =>
        let a' := mkRedis (with_defaultSerializer (base a) "") (options a) (adapter a) in
        set_this a' ;;
        ret (a', mkConnection (opt_prefix connection) code)
    | None => ret (a, connection)
    end ;;
  let '(a, connection) := updated in
  match initSerializer (base a) with
  | inr b => set_this (mkRedis b (options a) (adapter a)) ;; ret connection
  | inl e => throw e
  end.

Definition getAdapter : M St Connection :=
  a <- this ;;
  match adapter a with
  | Some connection => ret connection
  | None =>
      let connection := new_Redis in
      checkConnect connection ;;
      checkAuth connection ;;
      checkIndex connection ;;
      let connection := mkConnection (prefix (base a)) (opt_serializer connection) in
      connection <- setSerializer connection ;;
      a <- this ;;
      set_this (mkRedis (base a) (options a) (Some connection)) ;;
      ret connection
  end.

(** *** Ways the set-up of a connection fails

    [connect_call] is the call [checkConnect] issues.  [setup_failure]
    lists the failures of the three stages the adapter turns into a
    storage exception, with the message each one gets. *)

Definition connect_call (o : RedisOptions) : R -> Result * R :=
  redis_connect new_Redis
    (if persistent o then "pconnect" else "connect")
    (host o) (port o) (timeout o)
    (if persistent o then
       Some (if php_empty (ZString (persistentId o))
             then "persistentId" ++ string_of_long (index o)
             else persistentId o)
     else None)
    (retryInterval o) (readTimeout o)
    ((if php_empty (auth o) then [] else [("auth", auth o)]) ++
     (if php_empty (ssl o) then [] else [("stream", ssl o)]))%list.

Definition auth_passes (o : RedisOptions) (srv srv' : R) : Prop :=
  (php_empty (auth o) = true /\ srv' = srv) \/
  (php_empty (auth o) = false /\
   redis_auth new_Redis (auth o) srv = (Returns (ZBool true), srv')).

Inductive setup_failure (o : RedisOptions) (srv : R) : string -> Prop :=
| connect_refused v srv1 :
    connect_call o srv = (Returns v, srv1) ->
    to_bool v = false ->
    setup_failure o srv
      ("Could not connect to the Redisd server [" ++ host o ++ ":"
         ++ string_of_long (port o) ++ "]")
| connect_raised msg srv1 :
    connect_call o srv = (Raises msg, srv1) ->
    setup_failure o srv msg
| auth_rejected v srv1 r srv2 :
    connect_call o srv = (Returns v, srv1) ->
    to_bool v = true ->
    php_empty (auth o) = false ->
    redis_auth new_Redis (auth o) srv1 = (r, srv2) ->
    r <> Returns (ZBool true) ->
    setup_failure o srv "Failed to authenticate with the Redis server"
| select_rejected v srv1 srv2 v' srv3 :
    connect_call o srv = (Returns v, srv1) ->
    to_bool v = true ->
    auth_passes o srv1 srv2 ->
    0 < index o ->
    redis_select new_Redis (index o) srv2 = (Returns v', srv3) ->
    v' <> ZBool true ->
    setup_failure o srv "Redis server selected database failed".

(** The three stages in a row, as [getAdapter] runs them. *)
Definition setup (connection : Connection) : M St unit :=
  checkConnect connection ;;
  checkAuth connection ;;
  checkIndex connection.

(** [clear] hands back what [flushDB] returned. *)
Definition clear : M St zval :=
  connection <- getAdapter ;;
  call (redis_flushDB connection).

Definition decrement (key : string) (value : Z) : M St zval :=
  a <- this ;;
  fire (eventType (base a) ++ ":beforeDecrement") key ;;
  connection <- getAdapter ;;
  result <- call (redis_decrBy connection key value) ;;
  fire (eventType (base a) ++ ":afterDecrement") key ;;
  ret result.

Definition delete (key : string) : M St bool :=
  a <- this ;;
  fire (eventType (base a) ++ ":beforeDelete") key ;;
  connection <- getAdapter ;;
  r <- call (redis_del connection key) ;;
  let result := to_bool r in
  fire (eventType (base a) ++ ":afterDelete") key ;;
  ret result.

Definition has (key : string) : M St bool :=
  a <- this ;;
  fire (eventType (base a) ++ ":beforeHas") key ;;
  connection <- getAdapter ;;
  r <- call (redis_exists connection key) ;;
  let result := to_bool r in
  fire (eventType (base a) ++ ":afterHas") key ;;
  ret result.

Definition increment (key : string) (value : Z) : M St zval :=
  a <- this ;;
  fire (eventType (base a) ++ ":beforeIncrement") key ;;
  connection <- getAdapter ;;
  result <- call (redis_incrBy connection key value) ;;
  fire (eventType (base a) ++ ":afterIncrement") key ;;
  ret result.

Definition set (key : string) (value : zval) (ttl : Ttl) : M St bool :=
  a <- this ;;
  fire (eventType (base a) ++ ":beforeSet") key ;;
  if ttl_is_expired_integer ttl then
    result <- delete key ;;
    fire (eventType (base a) ++ ":afterSet") key ;;
    ret result
  else
    connection <- getAdapter ;;
    a' <- this ;;
    result <- call (redis_set connection key
                              (getSerializedData (base a') value)
                              (Some (getTtl (base a') ttl))) ;;
    fire (eventType (base a) ++ ":afterSet") key ;;
    ret (bool_or_false result).

Definition setForever (key : string) (value : zval) : M St bool :=
  connection <- getAdapter ;;
  a <- this ;;
  result <- call (redis_set connection key
                            (getSerializedData (base a) value) None) ;;
  ret (bool_or_false result).

End Client.
End Redis.

(** ** A scripted Redis server

    One concrete client-and-server pair, used to run the adapter: the
    outcome of connecting, authenticating and selecting a database is
    scripted, the selected database is a finite map from stored keys to
    payloads, and a connection left in [MULTI] mode answers every command
    with the client object itself. *)

Record RedisServer := mkServer {
  on_connect : Result;
  on_auth : Result;
  on_select : Result;
  multi : bool;
  db : gmap string zval
}.

Definition with_db (srv : RedisServer) (m : gmap string zval) : RedisServer :=
  mkServer (on_connect srv) (on_auth srv) (on_select srv) (multi srv) m.

Definition queued (srv : RedisServer) (reply : Result * RedisServer)
  : Result * RedisServer :=
  if multi srv then (Returns (ZObject "Redis"), srv) else reply.

Definition server_incrBy (c : Connection) (key : string) (n : Z) (srv : RedisServer)
  : Result * RedisServer :=
  let k := opt_prefix c ++ key in
  match db srv !! k with
  | None => (Returns (ZLong n), with_db srv (<[k := ZLong n]> (db srv)))
  | Some (ZLong m) =>
      if (- 2 ^ 63 <=? m + n) && (m + n <? 2 ^ 63)
      then (Returns (ZLong (m + n)), with_db srv (<[k := ZLong (m + n)]> (db srv)))
      else (Returns (ZBool false), srv)
  | Some _ => (Returns (ZBool false), srv)
  end.

#[export] Instance scripted_client : PhpRedis RedisServer := {
  redis_connect _ _ _ _ _ _ _ _ _ srv := (on_connect srv, srv);
  redis_auth _ _ srv := (on_auth srv, srv);
  redis_select _ _ srv := (on_select srv, srv);
  redis_flushDB _ srv := queued srv (Returns (ZBool true), with_db srv ∅);
  redis_del c key srv :=
    queued srv
      (let k := opt_prefix c ++ key in
       match db srv !! k with
       | Some _ => (Returns (ZLong 1), with_db srv (base.delete k (db srv)))
       | None => (Returns (ZLong 0), srv)
       end);
  redis_exists c key srv :=
    queued srv
      (Returns (ZLong (if bool_decide (is_Some (db srv !! (opt_prefix c ++ key)))
                       then 1 else 0)), srv);
  redis_set c key payload _ srv :=
    queued srv
      (Returns (ZBool true), with_db srv (<[opt_prefix c ++ key := payload]> (db srv)));
  redis_incrBy c key n srv := queued srv (server_incrBy c key n srv);
  redis_decrBy c key n srv := queued srv (server_incrBy c key (- n) srv);
  igbinary_defined := true;
  msgpack_defined := false;
  json_defined := true
}.

(** A server that accepts every step of the set-up. *)
Definition healthy_server (m : gmap string zval) : RedisServer :=
  mkServer (Returns (ZBool true)) (Returns (ZBool true)) (Returns (ZBool true)) false m.

(** ** The cache facade *)

Module Cache.

(** [results[key] = value] on an ordered PHP array: an existing key keeps
    its place, a new key goes last. *)
Fixpoint array_set (results : list (string * zval)) (key : string) (value : zval)
  : list (string * zval) :=
  match results with
  | [] => [(key, value)]
  | (k, v) :: rest =>
      if String.eqb k key then (k, value) :: rest
      else (k, v) :: array_set rest key value
  end.

Fixpoint array_get (results : list (string * zval)) (key : string) : option zval :=
  match results with
  | [] => None
  | (k, v) :: rest => if String.eqb k key then Some v else array_get rest key
  end.

Section Facade.
Context {S : Type}.
(** The adapter's [get(key, default)]. *)
Variable adapter_get : string -> zval -> M S zval.

Fixpoint getMultiple_loop (keys : list string) (defaultValue : zval)
         (results : list (string * zval)) : M S (list (string * zval)) :=
  match keys with
  | [] => ret results
  | element :: rest =>
      value <- adapter_get element defaultValue ;;
      getMultiple_loop rest defaultValue (array_set results element value)
  end.

(** Modelled from the spec: [Phalcon\Cache\Cache::getMultiple] is not
    among the sources, only its test is.  Without a native multi-get
    the facade falls back to one [get] per requested key, in input
    order, each miss replaced by the default. *)
Definition getMultiple (keys : list string) (defaultValue : zval)
  : M S (list (string * zval)) :=
  getMultiple_loop keys defaultValue [].
End Facade.

(** The keys of an ordered array built by assigning [keys] in turn. *)
Definition assign_key (acc : list string) (k : string) : list string :=
  if bool_decide (k ∈ acc) then acc else (acc ++ [k])%list.

Definition first_occurrences (keys : list string) : list string :=
  foldl assign_key [] keys.

End Cache.

(** ** Worlds used in examples *)

Definition plain_adapter (pfx : string) : AbstractAdapter :=
  mkAdapter pfx 3600 "" NoneSerializer (fun _ => Some NoneSerializer) "storage".

Definition apcu_world (cache : ApcuCache) : World ApcuCache := mkWorld cache [].

Definition redis_world (a : RedisAdapter) (srv : RedisServer)
  : World (RedisState RedisServer) :=
  mkWorld (mkState a srv) [].

Definition plain_entry (v : string) : ApcuEntry := mkEntry (ZString v) 3600.

Definition sample_cache : ApcuCache :=
  <["ph-apcu-k1" := plain_entry "a"]> (<["other-k" := plain_entry "c"]> ∅).

(** A Redis adapter that has already opened its connection. *)
Definition connected_adapter (pfx : string) : RedisAdapter :=
  mkRedis (plain_adapter pfx) default_options (Some (mkConnection pfx SERIALIZER_NONE)).

Definition sample_db : gmap string zval :=
  <["ph-reds-k1" := ZString "a"]> (<["other-k" := ZString "c"]> ∅).


(** Options naming a remote server and a password. *)
Definition guarded_options : RedisOptions :=
  mkOptions "10.0.0.5" 6380 0 (ZLong 0) false "" (ZString "secret") ""
            (ZLong 0) (ZLong 0) (ZLong 0) (ZArray []).

(** Options selecting database 2. *)
Definition indexed_options : RedisOptions :=
  mkOptions "10.0.0.5" 6380 2 (ZLong 0) false "" (ZArray []) ""
            (ZLong 0) (ZLong 0) (ZLong 0) (ZArray []).

(** A server whose [auth] raises. *)
Definition wrongpass_server : RedisServer :=
  mkServer (Returns (ZBool true)) (Raises "WRONGPASS invalid username-password pair")
           (Returns (ZBool true)) false ∅.

(** A server whose [select] raises. *)
Definition broken_select_server : RedisServer :=
  mkServer (Returns (ZBool true)) (Returns (ZBool true))
           (Raises "read error on connection") false ∅.

(** A server whose [connect] answers false. *)
Definition refusing_server : RedisServer :=
  mkServer (Returns (ZBool false)) (Returns (ZBool true)) (Returns (ZBool true)) false ∅.

(** A healthy server reached through a connection left in [MULTI] mode. *)
Definition multi_server : RedisServer :=
  mkServer (Returns (ZBool true)) (Returns (ZBool true)) (Returns (ZBool true)) true ∅.

(** A core serializer that visibly changes what it is given. *)
Definition tagging_serializer : Serializer :=
  mkSerializer (fun v => ZArray [ZString "serialized"; v])
               (fun v => match v with
                         | ZArray [ZString "serialized"; x] => x
                         | _ => ZBool false
                         end).

(** An adapter configured with the client's own PHP codec. *)
Definition native_php_adapter : RedisAdapter :=
  Redis.construct
    (mkAdapter "ph-reds-" 3600 "Redis_PHP" tagging_serializer
               (fun _ => Some tagging_serializer) "storage")
    default_options.

(** The pair of notifications around one operation on one key. *)
Definition notified (et op key : string) : list Event :=
  [(et ++ ":before" ++ op, key); (et ++ ":after" ++ op, key)].

(** A client whose connection has dropped: every call raises. *)
Definition lost_client : PhpRedis unit := {|
  redis_connect _ _ _ _ _ _ _ _ _ srv := (Raises "Connection lost", srv);
  redis_auth _ _ srv := (Raises "Connection lost", srv);
  redis_select _ _ srv := (Raises "Connection lost", srv);
  redis_flushDB _ srv := (Raises "Connection lost", srv);
  redis_del _ _ srv := (Raises "Connection lost", srv);
  redis_exists _ _ srv := (Raises "Connection lost", srv);
  redis_set _ _ _ _ srv := (Raises "Connection lost", srv);
  redis_incrBy _ _ _ srv := (Raises "Connection lost", srv);
  redis_decrBy _ _ _ srv := (Raises "Connection lost", srv);
  igbinary_defined := false;
  msgpack_defined := false;
  json_defined := false
|}.

(** A connected adapter whose connection has dropped since. *)
Definition lost_world : World (RedisState unit) :=
  mkWorld (mkState (connected_adapter "ph-reds-") tt) [].

(** ** [Phalcon\Session\Adapter\AbstractAdapter]

    The session handler keeps a storage adapter in [this->adapter] and
    reaches it through four of its methods.  Session ids arrive as
    strings. *)

Record AdapterInterface (S : Type) := mkInterface {
  adapter_has : string -> M S bool;
  adapter_delete : string -> M S bool;
  adapter_get : string -> M S zval;
  adapter_set : string -> zval -> M S bool
}.
Arguments mkInterface {S} _ _ _ _.
Arguments adapter_has {S} _ _.
Arguments adapter_delete {S} _ _.
Arguments adapter_get {S} _ _.
Arguments adapter_set {S} _ _ _.

(** The APCu adapter seen through the interface: [get] and [set] with
    their default arguments, a [null] default value and a [null] ttl. *)
Definition Apcu_interface (this : AbstractAdapter) : AdapterInterface ApcuCache :=
  mkInterface (Apcu.has this) (Apcu.delete this)
              (fun key => Apcu.get this key ZNull)
              (fun key value => Apcu.set this key value TtlNull).

Module Session.
Section Handler.
Context {S : Type}.
Variable adapter : AdapterInterface S.

Definition close : M S bool := ret true.

Definition destroy (id : string) : M S bool :=
  if negb (php_empty (ZString id)) then
    present <- adapter_has adapter id ;;
    if present : bool then adapter_delete adapter id else ret true
  else ret true.

Definition gc (max_lifetime : Z) : M S bool := ret true.

Definition read (id : string) : M S zval :=
  data <- adapter_get adapter id ;;
  ret (match data with
       | ZNull => ZString ""
       | _ => data
       end).

Definition open (path name : zval) : M S bool := ret true.

Definition write (id : string) (data : zval) : M S bool :=
  adapter_set adapter id data.

End Handler.
End Session.

(** ** [Phalcon\Storage\Serializer\None]

    The object holds the value in [this->data]; [serialize] hands it out
    and [unserialize] puts its argument there. *)

Module NoneClass.

Record None_ := mkNone { data : zval }.

Definition serialize (this : None_) : zval := data this.

Definition unserialize (this : None_) (data' : zval) : None_ := mkNone data'.

End NoneClass.

(** * Properties *)

(** ** The definitions on small inputs *)

Example strtolower_mixed_case : strtolower "Redis_PHP" = "redis_php".
Proof. reflexivity. Qed.

Example zero_string_is_empty : php_empty (ZString "0") = true.
Proof. reflexivity. Qed.

Example port_as_text : string_of_long 6379 = "6379".
Proof. reflexivity. Qed.

Example wrap64_past_the_top : wrap64 (2 ^ 63) = - 2 ^ 63.
Proof. reflexivity. Qed.

Example pattern_of_default_prefix :
  pcre_compile ("/^" ++ Apcu.default_prefix ++ "/")
  = Some [Lit "p"; Lit "h"; Lit "-"; Lit "a"; Lit "p"; Lit "c"; Lit "u"; Lit "-"]%char.
Proof. reflexivity. Qed.

Example pattern_with_a_slash_is_not_described : pcre_compile "/^a/b/" = None.
Proof. reflexivity. Qed.

Example dot_is_a_wildcard :
  option_map (fun re => pcre_match re "phXapcu-k") (pcre_compile "/^ph.apcu-/") = Some true.
Proof. reflexivity. Qed.

(** The counters of the spec's examples: 5, then 8, then 6. *)
Example counters_on_a_fresh_key :
  result_of ((Apcu.increment (plain_adapter "ph-apcu-") "n" 5 ;;
              Apcu.increment (plain_adapter "ph-apcu-") "n" 3 ;;
              Apcu.decrement (plain_adapter "ph-apcu-") "n" 2) (apcu_world ∅))
  = Some (ZLong 6).
Proof. vm_compute. reflexivity. Qed.

(** ** Strings and patterns *)

Lemma append_empty (k : string) : "" ++ k = k.
Proof. reflexivity. Qed.

Lemma append_String (c : ascii) (p k : string) : String c p ++ k = String c (p ++ k).
Proof. reflexivity. Qed.

Lemma starts_with_app (p k : string) : starts_with (p ++ k) p = true.
Proof.
  induction p as [|c p IH]; [done|].
  rewrite append_String. simpl. by rewrite Ascii.eqb_refl.
Qed.

Lemma starts_with_split (k p : string) :
  starts_with k p = true -> exists rest, k = p ++ rest.
Proof.
  revert k. induction p as [|c p IH]; intros k Hk; simpl in *.
  - by exists k.
  - destruct k as [|c' k']; [done|].
    apply andb_true_iff in Hk as [Hc Hk].
    apply Ascii.eqb_eq in Hc as ->.
    destruct (IH _ Hk) as [rest ->]. by exists rest.
Qed.

Lemma pcre_special_false (c : ascii) :
  pcre_special c = false ->
  Ascii.eqb c "/" = false /\ Ascii.eqb c "." = false.
Proof.
  unfold pcre_special. simpl. intros Hc.
  repeat (apply orb_false_elim in Hc as [? Hc]). done.
Qed.

Lemma pcre_body_plain (p : string) :
  pcre_plain p = true ->
  pcre_body (p ++ "/") = Some (Lit <$> list_ascii_of_string p).
Proof.
  induction p as [|c p IH]; [done|].
  rewrite append_String. simpl.
  intros [Hc Hp]%andb_true_iff. apply negb_true_iff in Hc.
  destruct (pcre_special_false c Hc) as [-> ->].
  by rewrite Hc, (IH Hp).
Qed.

Lemma pcre_compile_plain (p : string) :
  pcre_plain p = true ->
  pcre_compile ("/^" ++ p ++ "/") = Some (Lit <$> list_ascii_of_string p).
Proof. intros Hp. rewrite !append_String, append_empty. simpl. by apply pcre_body_plain. Qed.

Lemma pcre_match_plain (p k : string) :
  pcre_match (Lit <$> list_ascii_of_string p) k = starts_with k p.
Proof.
  revert k. induction p as [|c p IH]; intros k; simpl; [done|].
  destruct k as [|c' k']; [done|]. simpl. by rewrite IH.
Qed.

Lemma pcre_plain_app (p q : string) :
  pcre_plain (p ++ q) = pcre_plain p && pcre_plain q.
Proof.
  induction p as [|c p IH]; [done|].
  rewrite append_String. simpl. by rewrite IH, andb_assoc.
Qed.

(** ** The APCu iterator and the loop of [clear] *)

Lemma iterator_keys (re : list atom) (cache : ApcuCache) (k : string) :
  k ∈ (apcu_iterator_items re cache).*1 <->
  is_Some (cache !! k) /\ pcre_match re k = true.
Proof.
  unfold apcu_iterator_items. rewrite list_elem_of_fmap. split.
  - intros [[k' e] [-> [Hm Hin]%list_elem_of_filter]].
    apply elem_of_map_to_list in Hin. simpl in *. eauto.
  - intros [[e He] Hm]. exists (k, e). split; [done|].
    apply list_elem_of_filter. split; [done|]. by apply elem_of_map_to_list.
Qed.

Lemma iterator_keys_NoDup (re : list atom) (cache : ApcuCache) :
  NoDup (apcu_iterator_items re cache).*1.
Proof.
  unfold apcu_iterator_items.
  eapply sublist_NoDup; [apply (NoDup_fst_map_to_list cache)|].
  apply fmap_sublist, sublist_filter.
Qed.

Lemma clear_loop_spec (items : list (string * ApcuEntry)) (result : bool)
      (w : World ApcuCache) :
  NoDup items.*1 ->
  (forall k, k ∈ items.*1 -> is_Some (backend w !! k)) ->
  exists w',
    Apcu.clear_loop items result w = Ok result w' /\
    fired w' = fired w /\
    forall k, backend w' !! k =
              if bool_decide (k ∈ items.*1) then None else backend w !! k.
Proof.
  revert w. induction items as [|[k0 e0] items IH]; intros w Hnd Hin.
  - exists w. repeat split; try done.
  - rewrite fmap_cons in Hnd. simpl in Hnd. apply NoDup_cons in Hnd as [Hk0 Hnd].
    destruct (Hin k0) as [e He]; [rewrite fmap_cons; set_solver|].
    destruct (IH (mkWorld (base.delete k0 (backend w)) (fired w)) Hnd) as (w' & Hrun & Hf & Hst).
    + intros k Hk. simpl. rewrite lookup_delete_ne.
      * apply Hin. rewrite fmap_cons. apply elem_of_cons. by right.
      * intros ->. done.
    + exists w'. split; [|split; [done|]].
      * simpl. unfold bind at 1. unfold Apcu.phpApcuDelete, apcu_delete.
        unfold bind at 1. simpl. rewrite He. simpl. exact Hrun.
      * intros k. rewrite Hst. cbn [backend]. rewrite fmap_cons. cbn [fst].
        destruct (decide (k = k0)) as [Heq|Hne]; [subst k|].
        -- rewrite lookup_delete_eq.
           rewrite (bool_decide_eq_true_2 (k0 ∈ k0 :: items.*1)) by set_solver.
           by case_bool_decide.
        -- rewrite lookup_delete_ne by done.
           destruct (decide (k ∈ items.*1)) as [Hk|Hk].
           ++ rewrite !bool_decide_eq_true_2; [done| |done].
              apply elem_of_cons. by right.
           ++ rewrite !bool_decide_eq_false_2; [done| |done].
              by apply not_elem_of_cons.
Qed.

Lemma clear_compiled (this : AbstractAdapter) (re : list atom) (w : World ApcuCache) :
  pcre_compile ("/^" ++ prefix this ++ "/") = Some re ->
  exists w',
    Apcu.clear this w = Ok true w' /\
    fired w' = fired w /\
    forall k, backend w' !! k = if pcre_match re k then None else backend w !! k.
Proof.
  intros Hre.
  destruct (clear_loop_spec (apcu_iterator_items re (backend w)) true w)
    as (w' & Hrun & Hf & Hst).
  - apply iterator_keys_NoDup.
  - intros k Hk. by apply iterator_keys in Hk as [? _].
  - exists w'. split; [|split; [done|]].
    + unfold Apcu.clear, Apcu.phpApcuIterator. rewrite Hre.
      unfold bind at 1. simpl. exact Hrun.
    + intros k. rewrite Hst. case_bool_decide as Hk.
      * apply iterator_keys in Hk as [_ ->]. done.
      * destruct (pcre_match re k) eqn:Hm; [|done].
        destruct (backend w !! k) eqn:Hl; [|done].
        exfalso. apply Hk, iterator_keys. eauto.
Qed.

(** ** Runs of the APCu adapter's methods *)

Section ApcuRuns.
Variable this : AbstractAdapter.
Variable key : string.

Let stored := getPrefixedKey this key.
Let et := eventType this.

Lemma Apcu_has_run (w : World ApcuCache) :
  Apcu.has this key w =
  Ok (bool_decide (is_Some (backend w !! stored)))
     (mkWorld (backend w)
              (fired w ++ [(et ++ ":beforeHas", key); (et ++ ":afterHas", key)])).
Proof.
  unfold Apcu.has, bind, fire, Apcu.phpApcuExists, apcu_exists, get_backend, ret.
  cbn. by rewrite <- app_assoc.
Qed.

Lemma Apcu_delete_run (w : World ApcuCache) :
  Apcu.delete this key w =
  Ok (bool_decide (is_Some (backend w !! stored)))
     (mkWorld (base.delete stored (backend w))
              (fired w ++ [(et ++ ":beforeDelete", key); (et ++ ":afterDelete", key)])).
Proof.
  unfold Apcu.delete, bind, fire, Apcu.phpApcuDelete, apcu_delete, bind,
    get_backend, put_backend, ret.
  cbn. fold stored. destruct (backend w !! stored) as [e|] eqn:He; cbn.
  - by rewrite <- app_assoc.
  - rewrite <- app_assoc. by rewrite delete_id.
Qed.

Lemma Apcu_store_run (value : zval) (ttl : Ttl) (w : World ApcuCache) :
  ttl_is_expired_integer ttl = false ->
  Apcu.set this key value ttl w =
  Ok true
     (mkWorld (<[stored := mkEntry (getSerializedData this value) (getTtl this ttl)]> (backend w))
              (fired w ++ [(et ++ ":beforeSet", key); (et ++ ":afterSet", key)])).
Proof.
  intros Hguard.
  unfold Apcu.set, bind, fire. cbn. rewrite Hguard.
  unfold bind, Apcu.phpApcuStore, apcu_store, bind, get_backend, put_backend, ret.
  cbn. by rewrite <- app_assoc.
Qed.


Lemma Apcu_setForever_run (value : zval) (w : World ApcuCache) :
  Apcu.setForever this key value w =
  Ok true
     (mkWorld (<[stored := mkEntry (getSerializedData this value) 0]> (backend w))
              (fired w)).
Proof. reflexivity. Qed.

Lemma Apcu_get_run (defaultValue : zval) (w : World ApcuCache) :
  Apcu.get this key defaultValue w =
  Ok (match backend w !! stored with
      | Some e => getUnserializedData this (entry_value e)
      | None => defaultValue
      end)
     (mkWorld (backend w)
              (fired w ++ [(et ++ ":beforeGet", key); (et ++ ":afterGet", key)])).
Proof.
  unfold Apcu.get, bind, fire, Apcu.phpApcuExists, apcu_exists, get_backend, ret.
  cbn. fold stored. destruct (backend w !! stored) as [e|] eqn:He; cbn.
  - unfold Apcu.doGet, Apcu.phpApcuFetch, apcu_fetch, bind, get_backend, ret. cbn.
    fold stored. rewrite He. by rewrite <- app_assoc.
  - by rewrite <- app_assoc.
Qed.



(** What was stored is what [get] gives back, for a serializer that
    round-trips. *)
Lemma Apcu_set_then_get (value defaultValue : zval) (ttl : Ttl) (w : World ApcuCache) :
  ttl_is_expired_integer ttl = false ->
  (forall x, unserialize (serializer this) (serialize (serializer this) x) = x) ->
  result_of ((Apcu.set this key value ttl ;; Apcu.get this key defaultValue) w)
  = Some value.
Proof.
  intros Hguard Hround. unfold bind. rewrite Apcu_store_run by done.
  rewrite Apcu_get_run. cbn. fold stored. rewrite lookup_insert_eq. cbn.
  unfold getUnserializedData, getSerializedData.
  destruct (String.eqb (defaultSerializer this) ""); [done|].
  by rewrite Hround.
Qed.

End ApcuRuns.

(** ** Runs of the Redis adapter's methods *)

Section RedisRuns.
Context {R : Type} `{PhpRedis R}.
Implicit Types w : World (RedisState R).


Lemma call_raises f w msg srv' :
  f (server (backend w)) = (Raises msg, srv') ->
  Redis.call f w = Throw (RedisException msg) (with_server w srv').
Proof. intros Hf. unfold Redis.call. by rewrite Hf. Qed.

Lemma getAdapter_connected w c :
  adapter (self (backend w)) = Some c ->
  Redis.getAdapter w = Ok c w.
Proof.
  intros Hc. unfold Redis.getAdapter, bind, Redis.this. cbn. by rewrite Hc.
Qed.

Section Connected.
Variable w : World (RedisState R).
Variable c : Connection.
Hypothesis connected : adapter (self (backend w)) = Some c.

Let et := eventType (base (self (backend w))).
Let srv := server (backend w).

Lemma connected_after_fire more :
  Redis.getAdapter (with_fired w more) = Ok c (with_fired w more).
Proof. by apply getAdapter_connected. Qed.


Ltac run_connected Hcall :=
  unfold bind, Redis.this, fire, Redis.getAdapter, Redis.call, ret,
    with_fired, with_server;
  cbn; rewrite ?connected; cbn; fold srv; rewrite Hcall; cbn;
  rewrite <- ?app_assoc; try reflexivity.




Lemma Redis_store_run key value ttl v srv' :
  ttl_is_expired_integer ttl = false ->
  redis_set c key (getSerializedData (base (self (backend w))) value)
            (Some (getTtl (base (self (backend w))) ttl)) srv = (Returns v, srv') ->
  Redis.set key value ttl w =
  Ok (bool_or_false v)
     (with_fired (with_server w srv')
        [((et ++ ":beforeSet")%string, key); ((et ++ ":afterSet")%string, key)]).
Proof.
  intros Hguard Hcall. unfold Redis.set.
  unfold bind at 1. unfold Redis.this at 1.
  unfold bind at 1. unfold fire at 1. rewrite Hguard.
  run_connected Hcall.
Qed.

Lemma Redis_expired_run key value ttl v srv' :
  ttl_is_expired_integer ttl = true ->
  redis_del c key srv = (Returns v, srv') ->
  Redis.set key value ttl w =
  Ok (to_bool v)
     (with_fired (with_server w srv')
        [((et ++ ":beforeSet")%string, key); ((et ++ ":beforeDelete")%string, key);
         ((et ++ ":afterDelete")%string, key); ((et ++ ":afterSet")%string, key)]).
Proof.
  intros Hguard Hcall. unfold Redis.set.
  unfold bind at 1. unfold Redis.this at 1.
  unfold bind at 1. unfold fire at 1. rewrite Hguard.
  unfold Redis.delete. run_connected Hcall.
Qed.

Lemma Redis_setForever_run key value v srv' :
  redis_set c key (getSerializedData (base (self (backend w))) value) None srv
  = (Returns v, srv') ->
  Redis.setForever key value w = Ok (bool_or_false v) (with_server w srv').
Proof. intros Hcall. unfold Redis.setForever. run_connected Hcall. Qed.

Lemma Redis_clear_run v srv' :
  redis_flushDB c srv = (Returns v, srv') ->
  Redis.clear w = Ok v (with_server w srv').
Proof. intros Hcall. unfold Redis.clear. run_connected Hcall. Qed.

End Connected.
End RedisRuns.

(** ** The first use of a Redis adapter: setting the connection up *)

Section RedisSetup.
Context {R : Type} `{PhpRedis R}.
Implicit Types w : World (RedisState R).

Lemma checkConnect_run w :
  Redis.checkConnect new_Redis w =
  let o := options (self (backend w)) in
  match Redis.connect_call o (server (backend w)) with
  | (Returns v, srv1) =>
      if to_bool v then Ok tt (with_server w srv1)
      else Throw (StorageException
                    ("Could not connect to the Redisd server [" ++ host o ++ ":"
                       ++ string_of_long (port o) ++ "]"))
                 (with_server w srv1)
  | (Raises msg, srv1) => Throw (StorageException msg) (with_server w srv1)
  end.
Proof.
  unfold Redis.checkConnect, Redis.connect_call, try_catch, bind, Redis.this, Redis.call.
  cbn.
  destruct (persistent (options (self (backend w)))); cbn;
    repeat match goal with
           | |- context [php_empty ?x] => destruct (php_empty x); cbn
           end;
    match goal with
    | |- context [redis_connect ?a ?b ?c ?d ?e ?f ?g ?h ?i ?s] =>
        destruct (redis_connect a b c d e f g h i s) as [[v|msg] srv1]; cbn
    end;
    try destruct (to_bool v); reflexivity.
Qed.

Lemma checkAuth_run w :
  Redis.checkAuth new_Redis w =
  let o := options (self (backend w)) in
  if php_empty (auth o) then Ok tt w
  else
    match redis_auth new_Redis (auth o) (server (backend w)) with
    | (Returns v, srv1) =>
        if not_identical_true v
        then Throw (StorageException "Failed to authenticate with the Redis server")
                   (with_server w srv1)
        else Ok tt (with_server w srv1)
    | (Raises _, srv1) =>
        Throw (StorageException "Failed to authenticate with the Redis server")
              (with_server w srv1)
    end.
Proof.
  unfold Redis.checkAuth, try_catch, bind, Redis.this, Redis.call. cbn.
  destruct (php_empty (auth (options (self (backend w))))); cbn.
  - by destruct w as [[? ?] ?].
  - destruct (redis_auth _ _ _) as [[v|msg] srv1]; cbn; [|done].
    by destruct (not_identical_true v).
Qed.

Lemma checkIndex_run w :
  Redis.checkIndex new_Redis w =
  let o := options (self (backend w)) in
  if 0 <? index o then
    match redis_select new_Redis (index o) (server (backend w)) with
    | (Returns v, srv1) =>
        if not_identical_true v
        then Throw (StorageException "Redis server selected database failed")
                   (with_server w srv1)
        else Ok tt (with_server w srv1)
    | (Raises msg, srv1) => Throw (RedisException msg) (with_server w srv1)
    end
  else Ok tt w.
Proof.
  unfold Redis.checkIndex, bind, Redis.this, Redis.call. cbn.
  destruct (0 <? index (options (self (backend w)))); cbn; [|done].
  destruct (redis_select _ _ _) as [[v|msg] srv1]; cbn; [|done].
  by destruct (not_identical_true v).
Qed.

Lemma self_with_server w (srv : R) : self (backend (with_server w srv)) = self (backend w).
Proof. reflexivity. Qed.

Lemma server_with_server w (srv : R) : server (backend (with_server w srv)) = srv.
Proof. reflexivity. Qed.

Lemma not_identical_true_spec (v : zval) :
  not_identical_true v = false <-> v = ZBool true.
Proof. destruct v as [| [] | | | |]; cbn; split; congruence. Qed.

(** A failed stage raises the storage exception [setup_failure] names. *)
Lemma setup_fails w msg :
  Redis.setup_failure (options (self (backend w))) (server (backend w)) msg ->
  exists srv', Redis.setup new_Redis w = Throw (StorageException msg) (with_server w srv').
Proof.
  intros Hfail. unfold Redis.setup. unfold bind at 1. rewrite checkConnect_run. cbn zeta.
  destruct Hfail as [v srv1 Hc Hv | m srv1 Hc | v srv1 r srv2 Hc Hv Ha Hr Hne
                    | v srv1 srv2 v' srv3 Hc Hv Ha Hi Hs Hne]; rewrite Hc; try rewrite Hv.
  - by exists srv1.
  - by exists srv1.
  - unfold bind at 1. rewrite checkAuth_run. cbv zeta.
    rewrite self_with_server, server_with_server, Ha, Hr.
    exists srv2. destruct r as [va|]; [|done].
    destruct (not_identical_true va) eqn:Hva; [done|].
    apply not_identical_true_spec in Hva. congruence.
  - unfold bind at 1. rewrite checkAuth_run. cbv zeta.
    rewrite self_with_server, server_with_server.
    assert (Hidx : (0 <? index (options (self (backend w)))) = true) by by apply Z.ltb_lt.
    destruct Ha as [[Ha ->] | [Ha Hr]]; rewrite Ha; [|rewrite Hr];
      cbv beta iota delta [not_identical_true];
      rewrite checkIndex_run; cbv zeta;
      rewrite ?self_with_server, ?server_with_server, Hidx, Hs;
      (destruct (not_identical_true v') eqn:Hv';
       [by exists srv3 | apply not_identical_true_spec in Hv'; congruence]).
Qed.

Lemma getAdapter_first_use w :
  adapter (self (backend w)) = None ->
  Redis.getAdapter w =
  (Redis.setup new_Redis ;;
   connection <- Redis.setSerializer
                   (mkConnection (prefix (base (self (backend w)))) SERIALIZER_NONE) ;;
   a <- Redis.this ;;
   Redis.set_this (mkRedis (base a) (options a) (Some connection)) ;;
   ret connection) w.
Proof.
  intros Hnone. unfold Redis.getAdapter, Redis.setup.
  unfold bind at 1. unfold Redis.this at 1. rewrite Hnone.
  unfold bind. destruct (Redis.checkConnect new_Redis w); try done.
  destruct (Redis.checkAuth new_Redis w0); try done.
Qed.

Lemma setup_ok_inv w w1 :
  Redis.setup new_Redis w = Ok tt w1 -> exists srv1, w1 = with_server w srv1.
Proof.
  unfold Redis.setup. unfold bind at 1. rewrite checkConnect_run. cbv zeta.
  destruct (Redis.connect_call _ _) as [[v|msg] srv1]; [|done].
  destruct (to_bool v); [|done].
  unfold bind at 1. rewrite checkAuth_run. cbv zeta.
  rewrite self_with_server, server_with_server.
  destruct (php_empty _).
  - rewrite checkIndex_run. cbv zeta. rewrite self_with_server, server_with_server.
    destruct (0 <? _).
    + destruct (redis_select _ _ _) as [[v'|msg] srv2]; [|done].
      destruct (not_identical_true v'); [done|].
      intros [= <-]. by exists srv2.
    + intros [= <-]. by exists srv1.
  - destruct (redis_auth _ _ _) as [[va|msg] srv2]; [|done].
    destruct (not_identical_true va); [done|].
    rewrite checkIndex_run. cbv zeta. rewrite self_with_server, server_with_server.
    destruct (0 <? _).
    + destruct (redis_select _ _ _) as [[v'|msg] srv3]; [|done].
      destruct (not_identical_true v'); [done|].
      intros [= <-]. by exists srv3.
    + intros [= <-]. by exists srv2.
Qed.

Lemma setSerializer_native w connection code :
  Redis.serializer_map !! strtolower (defaultSerializer (base (self (backend w)))) = Some code ->
  Redis.setSerializer connection w =
  Ok (mkConnection (opt_prefix connection) code)
     (with_self w (mkRedis (with_defaultSerializer (base (self (backend w))) "")
                           (options (self (backend w)))
                           (adapter (self (backend w))))).
Proof.
  intros Hcode. unfold Redis.setSerializer. unfold bind at 1. unfold Redis.this at 1.
  rewrite Hcode. reflexivity.
Qed.

End RedisSetup.

(** ** The adapter on the scripted server *)






(** ** Runs of getKeys *)

Lemma append_assoc (a b c : string) : (a ++ b) ++ c = a ++ b ++ c.
Proof.
  induction a as [|x a IH]; [done|].
  by rewrite !append_String, IH.
Qed.

Lemma starts_with_prefixed (a raw p : string) :
  starts_with (a ++ raw) (a ++ p) = starts_with raw p.
Proof.
  induction a as [|x a IH]; [done|].
  rewrite !append_String. simpl. by rewrite Ascii.eqb_refl, IH.
Qed.

Lemma getKeys_plain_run (this : AbstractAdapter) (p : string) (w : World ApcuCache) :
  pcre_plain (prefix this ++ p) = true ->
  exists ks,
    Apcu.getKeys this p w = Ok ks w /\
    NoDup ks /\
    forall k, k ∈ ks <->
              is_Some (backend w !! k) /\ starts_with k (prefix this ++ p) = true.
Proof.
  intros Hplain.
  set (re := Lit <$> list_ascii_of_string (prefix this ++ p)).
  assert (Hre : pcre_compile ("/^" ++ prefix this ++ p ++ "/") = Some re).
  { rewrite <- (append_assoc (prefix this) p "/"). by apply pcre_compile_plain. }
  exists (apcu_iterator_items re (backend w)).*1.
  split; [|split; [apply iterator_keys_NoDup|]].
  - unfold Apcu.getKeys, Apcu.phpApcuIterator. rewrite Hre.
    by destruct w.
  - intros k. rewrite iterator_keys. unfold re. by rewrite pcre_match_plain.
Qed.

(** * The claims *)

(** ** delete *)




(** ** set with a time-to-live that is not positive *)


Lemma scripted_set (c : Connection) (key : string) (payload : zval) (ttl : option Z)
      (m : gmap string zval) :
  redis_set c key payload ttl (healthy_server m)
  = (Returns (ZBool true), healthy_server (<[opt_prefix c ++ key := payload]> m)).
Proof. reflexivity. Qed.




(** ** Notifications *)




(** ** clear and the entries of other adapters *)

(** C1, as stated, fails, in two ways.  A different prefix is not enough
    to be left alone: the adapter with prefix [ph-] clears the entry the
    adapter with prefix [ph-apcu-] stored, because its stored key begins
    with [ph-].  And the prefix goes into the pattern unquoted: with the
    prefix [ph.apcu-] the dot stands for any character, and [clear] removes
    an entry whose stored key does not begin with the prefix at all. *)
Lemma clear_removes_entries_of_other_adapters :
  (prefix (plain_adapter "ph-") <> prefix (plain_adapter "ph-apcu-") /\
   result_of (Apcu.has (plain_adapter "ph-apcu-") "k1" (apcu_world sample_cache))
   = Some true /\
   result_of ((Apcu.clear (plain_adapter "ph-") ;;
               Apcu.has (plain_adapter "ph-apcu-") "k1") (apcu_world sample_cache))
   = Some false) /\
  (starts_with "phXapcu-k2" "ph.apcu-" = false /\
   result_of (Apcu.has (plain_adapter "phXapcu-") "k2"
                       (apcu_world (<["phXapcu-k2" := plain_entry "b"]> ∅)))
   = Some true /\
   result_of ((Apcu.clear (plain_adapter "ph.apcu-") ;;
               Apcu.has (plain_adapter "phXapcu-") "k2")
                (apcu_world (<["phXapcu-k2" := plain_entry "b"]> ∅)))
   = Some false).
Proof. repeat split; [discriminate | vm_compute; reflexivity ..]. Qed.

(** The Redis adapter's [clear] is [flushDB]: on a connected adapter and a
    server that executes it, the whole selected database is emptied,
    whatever the prefixes of its keys. *)
Lemma Redis_clear_flushes_database (a : RedisAdapter) (c : Connection)
      (m : gmap string zval) :
  adapter a = Some c ->
  Redis.clear (redis_world a (healthy_server m))
  = Ok (ZBool true) (redis_world a (healthy_server ∅)).
Proof.
  intros Hc.
  by rewrite (Redis_clear_run (redis_world a (healthy_server m)) c Hc
                (ZBool true) (healthy_server ∅)).
Qed.

(** C1, amended: for an APCu adapter whose prefix has no character that is
    special in a pattern, [clear()] returns true, removes every entry whose
    stored key begins with the prefix and leaves every other entry of the
    cache unchanged; an entry of another adapter is therefore still seen
    by that adapter's [has], and still listed by its [getKeys], exactly
    when its stored key does not begin with the clearing adapter's
    prefix.  The Redis adapter's [clear()] is [flushDB]: on a server that
    executes it the whole selected database is emptied. *)
Theorem clear_scope :
  (forall (this : AbstractAdapter) (w : World ApcuCache),
      pcre_plain (prefix this) = true ->
      exists w',
        Apcu.clear this w = Ok true w' /\
        fired w' = fired w /\
        (forall k, backend w' !! k
                   = if starts_with k (prefix this) then None else backend w !! k) /\
        (forall (other : AbstractAdapter) (key : string),
            starts_with (getPrefixedKey other key) (prefix this) = false ->
            result_of (Apcu.has other key w') = result_of (Apcu.has other key w)) /\
        (forall (other : AbstractAdapter) (key : string),
            starts_with (getPrefixedKey other key) (prefix this) = true ->
            result_of (Apcu.has other key w') = Some false) /\
        (forall (other : AbstractAdapter) (p : string),
            pcre_plain (prefix other ++ p) = true ->
            exists ks ks',
              result_of (Apcu.getKeys other p w) = Some ks /\
              result_of (Apcu.getKeys other p w') = Some ks' /\
              forall k, starts_with k (prefix this) = false -> k ∈ ks' <-> k ∈ ks)) /\
  (forall (a : RedisAdapter) (c : Connection) (m : gmap string zval),
      adapter a = Some c ->
      Redis.clear (redis_world a (healthy_server m))
      = Ok (ZBool true) (redis_world a (healthy_server ∅))).
Proof.
  split; [|exact Redis_clear_flushes_database].
  intros this w Hplain.
  destruct (clear_compiled this _ w (pcre_compile_plain _ Hplain)) as (w' & Hrun & Hf & Hst).
  exists w'. split; [done|]. split; [done|].
  assert (Hst' : forall k, backend w' !! k
                           = if starts_with k (prefix this) then None else backend w !! k).
  { intros k. rewrite Hst. by rewrite pcre_match_plain. }
  split; [done|].
  split; [|split]; try (intros other key Hk; rewrite !Apcu_has_run; cbn; by rewrite Hst', Hk).
  intros other p Hp.
  destruct (getKeys_plain_run other p w Hp) as (ks & Hks & _ & Hin).
  destruct (getKeys_plain_run other p w' Hp) as (ks' & Hks' & _ & Hin').
  exists ks, ks'. rewrite Hks, Hks'. split; [done|]. split; [done|].
  intros k Hk. by rewrite Hin, Hin', Hst', Hk.
Qed.

Lemma clear_scope_witness :
  pcre_plain "ph-apcu-" = true /\
  starts_with (getPrefixedKey (plain_adapter "other-") "k") "ph-apcu-" = false /\
  (exists w',
      Apcu.clear (plain_adapter "ph-apcu-") (apcu_world sample_cache) = Ok true w' /\
      backend w' !! "other-k" = Some (plain_entry "c") /\
      backend w' !! "ph-apcu-k1" = None /\
      result_of (Apcu.has (plain_adapter "other-") "k" w') = Some true) /\
  backend_after (Redis.clear (redis_world (connected_adapter "ph-reds-")
                                          (healthy_server sample_db)))
  = Some (mkState (connected_adapter "ph-reds-") (healthy_server ∅)).
Proof.
  split; [reflexivity|]. split; [reflexivity|].
  destruct clear_scope as (Hapcu & Hredis).
  split.
  - destruct (Hapcu (plain_adapter "ph-apcu-") (apcu_world sample_cache) eq_refl)
      as (w' & Hrun & _ & Hst & Hhas & _ & _).
    exists w'. split; [exact Hrun|].
    split; [rewrite Hst; reflexivity|]. split; [rewrite Hst; reflexivity|].
    rewrite (Hhas (plain_adapter "other-") "k" eq_refl). reflexivity.
  - rewrite (Hredis (connected_adapter "ph-reds-") (mkConnection "ph-reds-" SERIALIZER_NONE)
               sample_db eq_refl).
    reflexivity.
Defined.

(** ** clear twice *)

(** C8: [clear()] returns true whether or not there is anything to clear,
    and so does a second [clear()] right after it, which finds nothing and
    changes nothing.  For APCu this holds for every prefix whose pattern is
    one of those described here; for Redis, on a connected adapter whose
    server executes [flushDB]. *)
Theorem clear_twice_returns_true :
  (forall (this : AbstractAdapter) (re : list atom) (w : World ApcuCache),
      pcre_compile ("/^" ++ prefix this ++ "/") = Some re ->
      exists w1 w2,
        Apcu.clear this w = Ok true w1 /\
        Apcu.clear this w1 = Ok true w2 /\
        backend w2 = backend w1 /\
        ((forall k, pcre_match re k = true -> backend w !! k = None) ->
         backend w1 = backend w)) /\
  (forall (a : RedisAdapter) (c : Connection) (m : gmap string zval),
      adapter a = Some c ->
      exists w1 w2,
        Redis.clear (redis_world a (healthy_server m)) = Ok (ZBool true) w1 /\
        Redis.clear w1 = Ok (ZBool true) w2 /\
        db (server (backend w1)) = ∅ /\
        backend w2 = backend w1).
Proof.
  split.
  - intros this re w Hre.
    destruct (clear_compiled this re w Hre) as (w1 & Hrun1 & _ & Hst1).
    destruct (clear_compiled this re w1 Hre) as (w2 & Hrun2 & _ & Hst2).
    exists w1, w2. repeat split; try done.
    + apply map_eq. intros k. rewrite Hst2, Hst1.
      by destruct (pcre_match re k).
    + intros Hempty. apply map_eq. intros k. rewrite Hst1.
      destruct (pcre_match re k) eqn:Hm; [|done]. by rewrite Hempty.
  - intros a c m Hc. do 2 eexists.
    split; [by apply (Redis_clear_flushes_database a c)|].
    split; [by apply (Redis_clear_flushes_database a c)|]. done.
Qed.

Lemma clear_twice_returns_true_witness :
  pcre_compile ("/^" ++ "ph-apcu-" ++ "/")
  = Some [Lit "p"; Lit "h"; Lit "-"; Lit "a"; Lit "p"; Lit "c"; Lit "u"; Lit "-"]%char /\
  (exists w1 w2,
      Apcu.clear (plain_adapter "ph-apcu-") (apcu_world ∅) = Ok true w1 /\
      Apcu.clear (plain_adapter "ph-apcu-") w1 = Ok true w2) /\
  (exists w1 w2,
      Redis.clear (redis_world (connected_adapter "ph-reds-") (healthy_server sample_db))
      = Ok (ZBool true) w1 /\
      Redis.clear w1 = Ok (ZBool true) w2).
Proof.
  split; [reflexivity|].
  destruct clear_twice_returns_true as (Hapcu & Hredis).
  split.
  - destruct (Hapcu (plain_adapter "ph-apcu-") _ (apcu_world ∅) eq_refl)
      as (w1 & w2 & H1 & H2 & _).
    exists w1, w2. split; assumption.
  - destruct (Hredis (connected_adapter "ph-reds-") (mkConnection "ph-reds-" SERIALIZER_NONE)
                sample_db eq_refl)
      as (w1 & w2 & H1 & H2 & _).
    exists w1, w2. split; assumption.
Defined.

(** ** getKeys *)

(** C4, as stated, fails: the keys [getKeys] returns are the stored keys,
    the adapter's prefix still in front. *)
Lemma getKeys_returns_prefixed_keys :
  result_of (Apcu.getKeys (plain_adapter "ph-apcu-") "" (apcu_world sample_cache))
  = Some ["ph-apcu-k1"] /\
  result_of (Apcu.getKeys (plain_adapter "ph-apcu-") "k" (apcu_world sample_cache))
  = Some ["ph-apcu-k1"].
Proof. split; vm_compute; reflexivity. Qed.

(** C4, amended: for a prefix and a sub-prefix without characters that are
    special in a pattern, [getKeys(p)] returns, each once and in no
    particular order, exactly the stored keys — prefix included, not
    stripped — of the entries whose stored key begins with the adapter's
    prefix followed by [p]; that is, the prefixed forms of the raw keys that
    begin with [p]. *)
Theorem getKeys_lists_stored_keys (this : AbstractAdapter) (p : string)
        (w : World ApcuCache) :
  pcre_plain (prefix this ++ p) = true ->
  exists ks,
    Apcu.getKeys this p w = Ok ks w /\
    NoDup ks /\
    (forall k, k ∈ ks <->
               is_Some (backend w !! k) /\ starts_with k (prefix this ++ p) = true) /\
    (forall raw, getPrefixedKey this raw ∈ ks <->
                 is_Some (backend w !! getPrefixedKey this raw) /\
                 starts_with raw p = true).
Proof.
  intros Hplain.
  destruct (getKeys_plain_run this p w Hplain) as (ks & Hrun & Hnd & Hks).
  exists ks. split; [done|]. split; [done|]. split; [done|].
  intros raw. rewrite Hks. unfold getPrefixedKey.
  by rewrite starts_with_prefixed.
Qed.

Lemma getKeys_lists_stored_keys_witness :
  pcre_plain ("ph-apcu-" ++ "k") = true /\
  exists ks,
    Apcu.getKeys (plain_adapter "ph-apcu-") "k" (apcu_world sample_cache)
    = Ok ks (apcu_world sample_cache) /\
    ("ph-apcu-k1" ∈ ks <->
     is_Some (sample_cache !! "ph-apcu-k1") /\ starts_with "k1" "k" = true).
Proof.
  split; [reflexivity|].
  destruct (getKeys_lists_stored_keys (plain_adapter "ph-apcu-") "k"
              (apcu_world sample_cache) eq_refl)
    as (ks & Hrun & _ & _ & Hraw).
  exists ks. split; [exact Hrun|]. exact (Hraw "k1").
Defined.

(** ** getMultiple *)

Section GetMultiple.
Variable this : AbstractAdapter.

(** What [get] yields for a key in a given cache. *)
Let fetched (cache : ApcuCache) (defaultValue : zval) (k : string) : zval :=
  match cache !! getPrefixedKey this k with
  | Some e => getUnserializedData this (entry_value e)
  | None => defaultValue
  end.

Lemma array_set_keys (results : list (string * zval)) (k : string) (v : zval) :
  (Cache.array_set results k v).*1 = Cache.assign_key results.*1 k.
Proof.
  unfold Cache.assign_key.
  induction results as [|[k' v'] results IH]; [done|].
  cbn [Cache.array_set]. rewrite fmap_cons. cbn [fst].
  destruct (String.eqb_spec k' k) as [->|Hne].
  - rewrite bool_decide_eq_true_2 by set_solver. done.
  - rewrite fmap_cons, IH. cbn [fst].
    destruct (decide (k ∈ results.*1)) as [Hin|Hin].
    + rewrite !bool_decide_eq_true_2; [done| |done].
      apply elem_of_cons. by right.
    + rewrite !bool_decide_eq_false_2; [done| |done].
      apply not_elem_of_cons. split; [congruence|done].
Qed.

Lemma array_get_set (results : list (string * zval)) (k k' : string) (v : zval) :
  Cache.array_get (Cache.array_set results k v) k'
  = if String.eqb k k' then Some v else Cache.array_get results k'.
Proof.
  induction results as [|[k0 v0] results IH]; cbn.
  - done.
  - destruct (String.eqb_spec k0 k) as [->|Hne]; cbn.
    + by destruct (String.eqb_spec k k').
    + rewrite IH. destruct (String.eqb_spec k0 k') as [->|Hne']; [|done].
      destruct (String.eqb_spec k k'); congruence.
Qed.

Lemma getMultiple_loop_spec (keys : list string) (defaultValue : zval)
      (results : list (string * zval)) (w : World ApcuCache) :
  exists arr w',
    Cache.getMultiple_loop (Apcu.get this) keys defaultValue results w = Ok arr w' /\
    backend w' = backend w /\
    arr.*1 = foldl Cache.assign_key results.*1 keys /\
    forall k, Cache.array_get arr k
              = if bool_decide (k ∈ keys) then Some (fetched (backend w) defaultValue k)
                else Cache.array_get results k.
Proof.
  revert results w. induction keys as [|element keys IH]; intros results w.
  - exists results, w. repeat split; try done.
  - cbn [Cache.getMultiple_loop]. unfold bind at 1. rewrite Apcu_get_run.
    edestruct IH as (arr & w' & Hrun & Hb & Hkeys & Hget).
    exists arr, w'. split; [exact Hrun|]. split; [done|]. split.
    + rewrite Hkeys. cbn [foldl]. by rewrite array_set_keys.
    + intros k. rewrite Hget. cbn [backend]. rewrite array_get_set.
      destruct (decide (k ∈ keys)) as [Hin|Hin].
      * rewrite !bool_decide_eq_true_2; [done| |done]. set_solver.
      * rewrite (bool_decide_eq_false_2 (k ∈ keys)) by done.
        destruct (String.eqb_spec element k) as [->|Hne].
        -- rewrite bool_decide_eq_true_2 by (apply elem_of_cons; by left). done.
        -- rewrite bool_decide_eq_false_2; [done|].
           apply not_elem_of_cons. split; [congruence|done].
Qed.

Lemma assign_fresh_keys (acc keys : list string) :
  NoDup (acc ++ keys) -> foldl Cache.assign_key acc keys = (acc ++ keys)%list.
Proof.
  revert acc. induction keys as [|k keys IH]; intros acc Hnd; cbn [foldl].
  - by rewrite app_nil_r.
  - unfold Cache.assign_key at 2.
    rewrite bool_decide_eq_false_2.
    + rewrite IH; rewrite <- app_assoc; done.
    + apply NoDup_app in Hnd as (_ & Hd & _). intros Hin. apply (Hd k Hin). set_solver.
Qed.

End GetMultiple.

(** C7: [getMultiple(keys, default)] over the APCu adapter returns an
    ordered map in which every requested key appears, bound to the value
    [get] yields for it — the default on a miss — and whose keys come in
    the order of the input: the input itself when no key is requested
    twice, and otherwise the input with later repetitions dropped, a map
    holding each key once. *)
Theorem getMultiple_keeps_input_order (this : AbstractAdapter) (keys : list string)
        (defaultValue : zval) (w : World ApcuCache) :
  exists arr w',
    Cache.getMultiple (Apcu.get this) keys defaultValue w = Ok arr w' /\
    backend w' = backend w /\
    arr.*1 = Cache.first_occurrences keys /\
    (NoDup keys -> arr.*1 = keys) /\
    (forall k, k ∈ keys ->
               Cache.array_get arr k
               = Some (match backend w !! getPrefixedKey this k with
                       | Some e => getUnserializedData this (entry_value e)
                       | None => defaultValue
                       end)).
Proof.
  destruct (getMultiple_loop_spec this keys defaultValue [] w)
    as (arr & w' & Hrun & Hb & Hkeys & Hget).
  exists arr, w'. split; [exact Hrun|]. split; [done|]. split; [done|]. split.
  - intros Hnd. rewrite Hkeys. by apply (assign_fresh_keys [] keys).
  - intros k Hk. rewrite Hget. by rewrite bool_decide_eq_true_2.
Qed.

Lemma getMultiple_keeps_input_order_witness :
  NoDup ["k1"; "k"; "missing"] /\
  exists arr w',
    Cache.getMultiple (Apcu.get (plain_adapter "ph-apcu-")) ["k1"; "k"; "missing"]
                      (ZString "D") (apcu_world sample_cache) = Ok arr w' /\
    arr.*1 = ["k1"; "k"; "missing"] /\
    Cache.array_get arr "k1" = Some (ZString "a") /\
    Cache.array_get arr "missing" = Some (ZString "D").
Proof.
  assert (Hnd : NoDup ["k1"; "k"; "missing"]).
  { apply (bool_decide_unpack (NoDup ["k1"; "k"; "missing"])). vm_compute. exact I. }
  split; [exact Hnd|].
  destruct (getMultiple_keeps_input_order (plain_adapter "ph-apcu-") ["k1"; "k"; "missing"]
              (ZString "D") (apcu_world sample_cache))
    as (arr & w' & Hrun & _ & _ & Horder & Hget).
  exists arr, w'. split; [exact Hrun|]. split; [exact (Horder Hnd)|].
  split; rewrite Hget; [reflexivity | set_solver | reflexivity | set_solver].
Defined.

(** ** Failures while the connection is set up *)

(** A stored world for a Redis adapter that has not connected yet. *)
Lemma fresh_adapter_has_no_connection (parent : AbstractAdapter) (opts : RedisOptions) :
  adapter (Redis.construct parent opts) = None.
Proof. reflexivity. Qed.

(** C6, as stated, fails: when authentication raises, the storage
    exception carries a fixed message, which neither repeats the message
    of the client's exception nor names the host or the port. *)
Lemma auth_failure_hides_backend_message :
  raised_by (Redis.has "k" (redis_world (Redis.construct (plain_adapter "ph-reds-")
                                                         guarded_options)
                                        wrongpass_server))
  = Some (StorageException "Failed to authenticate with the Redis server") /\
  contains "Failed to authenticate with the Redis server"
           "WRONGPASS invalid username-password pair" = false /\
  contains "Failed to authenticate with the Redis server" "10.0.0.5" = false /\
  contains "Failed to authenticate with the Redis server" "6380" = false.
Proof. repeat split; vm_compute; reflexivity. Qed.

(** [checkIndex] has no handler of its own: an exception raised by
    [select] leaves the adapter as the client raised it. *)
Lemma select_exception_is_not_wrapped :
  raised_by (Redis.has "k" (redis_world (Redis.construct (plain_adapter "ph-reds-")
                                                         indexed_options)
                                        broken_select_server))
  = Some (RedisException "read error on connection").
Proof. vm_compute; reflexivity. Qed.

(** C6, amended: constructing the adapter opens nothing; on first use, a
    failure of [connect], of [auth], or a [select] that does not answer
    true, raises a storage exception and leaves the adapter unconnected.
    Its message names host and port when [connect] answered false, is the
    client's own message when [connect] raised, and is a fixed sentence for
    a failed authentication and for a failed selection of the database. *)
Theorem connection_failure_raises_storage_exception
        (R : Type) (client : PhpRedis R) (w : World (RedisState R))
        (parent : AbstractAdapter) (opts : RedisOptions) (msg : string) :
  self (backend w) = Redis.construct parent opts ->
  Redis.setup_failure opts (server (backend w)) msg ->
  exists w',
    Redis.getAdapter w = Throw (StorageException msg) w' /\
    Redis.clear w = Throw (StorageException msg) w' /\
    self (backend w') = Redis.construct parent opts.
Proof.
  intros Hself Hfail.
  assert (Hnone : adapter (self (backend w)) = None) by by rewrite Hself.
  destruct (setup_fails w msg) as [srv' Hsetup]; [by rewrite Hself|].
  assert (Hget : Redis.getAdapter w = Throw (StorageException msg) (with_server w srv')).
  { rewrite getAdapter_first_use by done. unfold bind at 1. by rewrite Hsetup. }
  exists (with_server w srv'). split; [done|]. split.
  - unfold Redis.clear, bind. by rewrite Hget.
  - done.
Qed.

Lemma connection_failure_raises_storage_exception_witness :
  Redis.setup_failure default_options refusing_server
                      "Could not connect to the Redisd server [127.0.0.1:6379]" /\
  exists w',
    Redis.getAdapter (redis_world (Redis.construct (plain_adapter "ph-reds-") default_options)
                                  refusing_server)
    = Throw (StorageException "Could not connect to the Redisd server [127.0.0.1:6379]") w'.
Proof.
  assert (Hfail : Redis.setup_failure default_options refusing_server
                    "Could not connect to the Redisd server [127.0.0.1:6379]").
  { exact (Redis.connect_refused default_options refusing_server (ZBool false)
             refusing_server eq_refl eq_refl). }
  split; [exact Hfail|].
  destruct (connection_failure_raises_storage_exception RedisServer scripted_client
              (redis_world (Redis.construct (plain_adapter "ph-reds-") default_options)
                           refusing_server)
              (plain_adapter "ph-reds-") default_options
              "Could not connect to the Redisd server [127.0.0.1:6379]" eq_refl Hfail)
    as (w' & Hget & _).
  exists w'. exact Hget.
Defined.

(** ** Serializers of the Redis client *)

Section NativeSerializers.
Context {R : Type} `{PhpRedis R}.

(** The two codecs every build of the client has. *)
Lemma serializer_map_always :
  Redis.serializer_map !! "redis_none" = Some SERIALIZER_NONE /\
  Redis.serializer_map !! "redis_php" = Some SERIALIZER_PHP.
Proof.
  unfold Redis.serializer_map.
  destruct igbinary_defined, msgpack_defined, json_defined; split; reflexivity.
Qed.

(** The three optional codecs are in the table exactly when the build
    defines their constant. *)
Lemma serializer_map_optional :
  Redis.serializer_map !! "redis_igbinary"
  = (if igbinary_defined then Some SERIALIZER_IGBINARY else None) /\
  Redis.serializer_map !! "redis_msgpack"
  = (if msgpack_defined then Some SERIALIZER_MSGPACK else None) /\
  Redis.serializer_map !! "redis_json"
  = (if json_defined then Some SERIALIZER_JSON else None).
Proof.
  unfold Redis.serializer_map.
  destruct igbinary_defined, msgpack_defined, json_defined; repeat split; reflexivity.
Qed.

End NativeSerializers.

(** *** First use with a codec of the client *)

Section NativeFirstUse.
Context {R : Type} `{PhpRedis R}.
Implicit Types w : World (RedisState R).

(** The set-up of a connection neither reads nor writes the notification
    log. *)
Lemma setup_ignores_fired w more srv1 :
  Redis.setup new_Redis w = Ok tt (with_server w srv1) ->
  Redis.setup new_Redis (with_fired w more) = Ok tt (with_server (with_fired w more) srv1).
Proof.
  unfold Redis.setup, bind.
  rewrite !checkConnect_run. cbv zeta.
  change (backend (with_fired w more)) with (backend w).
  destruct (Redis.connect_call _ _) as [[v|msg] s1]; [|done].
  destruct (to_bool v); [|done].
  rewrite !checkAuth_run. cbv zeta.
  rewrite !self_with_server, !server_with_server.
  change (backend (with_fired w more)) with (backend w).
  destruct (php_empty _).
  - rewrite !checkIndex_run. cbv zeta. rewrite !self_with_server, !server_with_server.
    change (backend (with_fired w more)) with (backend w).
    destruct (0 <? _).
    + destruct (redis_select _ _ _) as [[v'|msg] s2]; [|done].
      destruct (not_identical_true v'); [done|].
      intros [= <-]. reflexivity.
    + intros [= <-]. reflexivity.
  - destruct (redis_auth _ _ _) as [[va|msg] s2]; [|done].
    destruct (not_identical_true va); [done|].
    rewrite !checkIndex_run. cbv zeta. rewrite !self_with_server, !server_with_server.
    change (backend (with_fired w more)) with (backend w).
    destruct (0 <? _).
    + destruct (redis_select _ _ _) as [[v'|msg] s3]; [|done].
      destruct (not_identical_true v'); [done|].
      intros [= <-]. reflexivity.
    + intros [= <-]. reflexivity.
Qed.

(** [getAdapter] on an adapter without connection whose default serializer
    is in the client's table. *)
Lemma getAdapter_native_run w srv1 code :
  adapter (self (backend w)) = None ->
  Redis.setup new_Redis w = Ok tt (with_server w srv1) ->
  Redis.serializer_map !! strtolower (defaultSerializer (base (self (backend w)))) = Some code ->
  Redis.getAdapter w =
  Ok (mkConnection (prefix (base (self (backend w)))) code)
     (mkWorld
        (mkState
           (mkRedis (with_defaultSerializer (base (self (backend w))) "")
                    (options (self (backend w)))
                    (Some (mkConnection (prefix (base (self (backend w)))) code)))
           srv1)
        (fired w)).
Proof.
  intros Hnone Hsetup Hcode.
  rewrite getAdapter_first_use by done. unfold bind at 1. rewrite Hsetup.
  unfold bind at 1. rewrite (setSerializer_native (with_server w srv1) _ code) by done.
  reflexivity.
Qed.

(** A storing [set] that opens the connection: the payload it gives the
    client is the caller's value. *)
Lemma Redis_store_native_first_use w srv1 code key value ttl v srv' :
  adapter (self (backend w)) = None ->
  Redis.setup new_Redis w = Ok tt (with_server w srv1) ->
  Redis.serializer_map !! strtolower (defaultSerializer (base (self (backend w)))) = Some code ->
  ttl_is_expired_integer ttl = false ->
  redis_set (mkConnection (prefix (base (self (backend w)))) code) key value
            (Some (getTtl (base (self (backend w))) ttl)) srv1 = (Returns v, srv') ->
  Redis.set key value ttl w =
  Ok (bool_or_false v)
     (mkWorld
        (mkState
           (mkRedis (with_defaultSerializer (base (self (backend w))) "")
                    (options (self (backend w)))
                    (Some (mkConnection (prefix (base (self (backend w)))) code)))
           srv')
        (fired w ++ notified (eventType (base (self (backend w)))) "Set" key)).
Proof.
  intros Hnone Hsetup Hcode Hguard Hcall. unfold Redis.set.
  unfold bind at 1. unfold Redis.this at 1.
  unfold bind at 1. unfold fire at 1. rewrite Hguard.
  unfold bind at 1.
  pose proof (getAdapter_native_run
                (with_fired w [((eventType (base (self (backend w))) ++ ":beforeSet")%string, key)])
                srv1 code Hnone (setup_ignores_fired w _ srv1 Hsetup) Hcode) as Hget.
  unfold with_fired in Hget. cbn [backend fired] in Hget.
  rewrite Hget.
  unfold bind, Redis.this, Redis.call, fire, ret. cbn.
  replace (getTtl (with_defaultSerializer (base (self (backend w))) "") ttl)
    with (getTtl (base (self (backend w))) ttl) by (by destruct ttl).
  rewrite Hcall. cbn. rewrite <- app_assoc. reflexivity.
Qed.

(** The same for a [setForever] that opens the connection. *)
Lemma Redis_setForever_native_first_use w srv1 code key value v srv' :
  adapter (self (backend w)) = None ->
  Redis.setup new_Redis w = Ok tt (with_server w srv1) ->
  Redis.serializer_map !! strtolower (defaultSerializer (base (self (backend w)))) = Some code ->
  redis_set (mkConnection (prefix (base (self (backend w)))) code) key value None srv1
  = (Returns v, srv') ->
  Redis.setForever key value w =
  Ok (bool_or_false v)
     (mkWorld
        (mkState
           (mkRedis (with_defaultSerializer (base (self (backend w))) "")
                    (options (self (backend w)))
                    (Some (mkConnection (prefix (base (self (backend w)))) code)))
           srv')
        (fired w)).
Proof.
  intros Hnone Hsetup Hcode Hcall. unfold Redis.setForever.
  unfold bind at 1. rewrite (getAdapter_native_run w srv1 code Hnone Hsetup Hcode).
  unfold bind, Redis.this, Redis.call, ret. cbn.
  rewrite Hcall. reflexivity.
Qed.

End NativeFirstUse.

(** C9: when the default serializer names, in any letter case, a codec in
    the client's table, the first use of the adapter — once the connection
    is set up — selects that codec on the connection and empties the
    adapter's default serializer name, so that the core layer hands every
    value through unchanged in both directions.  The payload the client's
    [set] receives is then the caller's value itself, never an encoding of
    it: in [setForever] and in a storing [set], both when the call is the
    one that opens the connection and when it runs on the connection so
    opened. *)
Theorem native_serializer_bypasses_core
        (R : Type) (client : PhpRedis R) (w w1 : World (RedisState R))
        (code : RedisSerializer) :
  adapter (self (backend w)) = None ->
  Redis.setup new_Redis w = Ok tt w1 ->
  Redis.serializer_map !! strtolower (defaultSerializer (base (self (backend w)))) = Some code ->
  exists w',
    Redis.getAdapter w = Ok (mkConnection (prefix (base (self (backend w)))) code) w' /\
    adapter (self (backend w'))
    = Some (mkConnection (prefix (base (self (backend w)))) code) /\
    defaultSerializer (base (self (backend w'))) = "" /\
    (forall v, getSerializedData (base (self (backend w'))) v = v) /\
    (forall v, getUnserializedData (base (self (backend w'))) v = v) /\
    (forall key value v srv',
        redis_set (mkConnection (prefix (base (self (backend w)))) code) key value None
                  (server (backend w')) = (Returns v, srv') ->
        Redis.setForever key value w' = Ok (bool_or_false v) (with_server w' srv')) /\
    (forall key value v srv',
        redis_set (mkConnection (prefix (base (self (backend w)))) code) key value None
                  (server (backend w1)) = (Returns v, srv') ->
        Redis.setForever key value w = Ok (bool_or_false v) (with_server w' srv')) /\
    (forall key value ttl v srv',
        ttl_is_expired_integer ttl = false ->
        redis_set (mkConnection (prefix (base (self (backend w)))) code) key value
                  (Some (getTtl (base (self (backend w))) ttl))
                  (server (backend w1)) = (Returns v, srv') ->
        Redis.set key value ttl w
        = Ok (bool_or_false v)
             (with_fired (with_server w' srv')
                         (notified (eventType (base (self (backend w)))) "Set" key))) /\
    (forall key value ttl v srv',
        ttl_is_expired_integer ttl = false ->
        redis_set (mkConnection (prefix (base (self (backend w)))) code) key value
                  (Some (getTtl (base (self (backend w))) ttl))
                  (server (backend w')) = (Returns v, srv') ->
        Redis.set key value ttl w'
        = Ok (bool_or_false v)
             (with_fired (with_server w' srv')
                         (notified (eventType (base (self (backend w)))) "Set" key))).
Proof.
  intros Hnone Hsetup Hcode.
  destruct (setup_ok_inv w w1 Hsetup) as [srv1 ->].
  eexists. split; [exact (getAdapter_native_run w srv1 code Hnone Hsetup Hcode)|].
  split; [reflexivity|]. split; [reflexivity|].
  split; [reflexivity|]. split; [reflexivity|].
  split; [|split; [|split]].
  - intros key value v srv' Hset.
    apply (Redis_setForever_run _ (mkConnection (prefix (base (self (backend w)))) code));
      [reflexivity | exact Hset].
  - intros key value v srv' Hset.
    exact (Redis_setForever_native_first_use w srv1 code key value v srv'
             Hnone Hsetup Hcode Hset).
  - intros key value ttl v srv' Hguard Hset.
    exact (Redis_store_native_first_use w srv1 code key value ttl v srv'
             Hnone Hsetup Hcode Hguard Hset).
  - intros key value ttl v srv' Hguard Hset.
    lazymatch goal with
    | |- Redis.set _ _ _ ?w' = _ =>
        exact (Redis_store_run w' (mkConnection (prefix (base (self (backend w)))) code)
                 eq_refl key value ttl v srv' Hguard Hset)
    end.
Qed.

Lemma native_serializer_bypasses_core_witness :
  exists w',
    Redis.getAdapter (redis_world native_php_adapter (healthy_server ∅))
    = Ok (mkConnection "ph-reds-" SERIALIZER_PHP) w' /\
    defaultSerializer (base (self (backend w'))) = "" /\
    backend_after (Redis.setForever "k" (ZString "v")
                                    (redis_world native_php_adapter (healthy_server ∅)))
    = Some (mkState (self (backend w'))
                    (healthy_server (<["ph-reds-k" := ZString "v"]> ∅))) /\
    backend_after (Redis.set "k" (ZString "v") TtlNull
                             (redis_world native_php_adapter (healthy_server ∅)))
    = Some (mkState (self (backend w'))
                    (healthy_server (<["ph-reds-k" := ZString "v"]> ∅))) /\
    backend_after (Redis.set "k" (ZString "v") TtlNull w')
    = Some (mkState (self (backend w'))
                    (healthy_server (<["ph-reds-k" := ZString "v"]> ∅))).
Proof.
  destruct (native_serializer_bypasses_core RedisServer scripted_client
              (redis_world native_php_adapter (healthy_server ∅))
              (redis_world native_php_adapter (healthy_server ∅))
              SERIALIZER_PHP eq_refl eq_refl eq_refl)
    as (w' & Hget & _ & Hname & _ & _ & _ & Hforever & Hfirst & Hnext).
  exists w'. split; [exact Hget|]. split; [exact Hname|].
  pose proof (Hforever "k" (ZString "v") (ZBool true) _
                (scripted_set (mkConnection "ph-reds-" SERIALIZER_PHP) "k" (ZString "v")
                              None ∅)) as Hrun1.
  pose proof (Hfirst "k" (ZString "v") TtlNull (ZBool true) _ eq_refl
                (scripted_set (mkConnection "ph-reds-" SERIALIZER_PHP) "k" (ZString "v")
                              (Some 3600) ∅)) as Hrun2.
  injection Hget as <-.
  pose proof (Hnext "k" (ZString "v") TtlNull (ZBool true) _ eq_refl
                (scripted_set (mkConnection "ph-reds-" SERIALIZER_PHP) "k" (ZString "v")
                              (Some 3600) ∅)) as Hrun3.
  rewrite Hrun1, Hrun2, Hrun3. repeat split.
Defined.

(** ** The result of set and setForever on Redis *)

(** C10, as stated, fails on the branch of [set] taken for an integer ttl
    below one: the result is the boolean cast of what the client's [del]
    answered, so an answer that is no boolean — the count 1, or the client
    object of a connection in MULTI mode — comes back as true, not as
    false. *)
Lemma expired_set_casts_non_boolean_answer_to_true :
  (redis_del (mkConnection "ph-reds-" SERIALIZER_NONE) "k" multi_server
   = (Returns (ZObject "Redis"), multi_server) /\
   bool_or_false (ZObject "Redis") = false /\
   result_of (Redis.set "k" (ZString "v") (TtlInt 0)
                        (redis_world (connected_adapter "ph-reds-") multi_server))
   = Some true) /\
  (fst (redis_del (mkConnection "ph-reds-" SERIALIZER_NONE) "k1" (healthy_server sample_db))
   = Returns (ZLong 1) /\
   bool_or_false (ZLong 1) = false /\
   result_of (Redis.set "k1" (ZString "v") (TtlInt (-3))
                        (redis_world (connected_adapter "ph-reds-") (healthy_server sample_db)))
   = Some true).
Proof. repeat split; vm_compute; reflexivity. Qed.

(** C10, amended: on a connected adapter, whatever the client's [set]
    answers, [setForever] and a [set] that stores return that answer when
    it is a boolean and false when it is anything else; a [set] with an
    integer ttl below one returns the boolean cast of the answer of the
    client's [del], whatever that answer is. *)
Theorem set_returns_boolean
        (R : Type) (client : PhpRedis R) (w : World (RedisState R)) (c : Connection)
        (key : string) (value : zval) (ttl : Ttl) (v : zval) (srv' : R) :
  adapter (self (backend w)) = Some c ->
  (ttl_is_expired_integer ttl = false ->
   redis_set c key (getSerializedData (base (self (backend w))) value)
             (Some (getTtl (base (self (backend w))) ttl)) (server (backend w))
   = (Returns v, srv') ->
   result_of (Redis.set key value ttl w)
   = Some (match v with ZBool b => b | _ => false end)) /\
  (redis_set c key (getSerializedData (base (self (backend w))) value) None
             (server (backend w)) = (Returns v, srv') ->
   result_of (Redis.setForever key value w)
   = Some (match v with ZBool b => b | _ => false end)) /\
  (ttl_is_expired_integer ttl = true ->
   redis_del c key (server (backend w)) = (Returns v, srv') ->
   result_of (Redis.set key value ttl w) = Some (to_bool v)).
Proof.
  intros Hc. split; [|split].
  - intros Hguard Hset. by rewrite (Redis_store_run w c Hc key value ttl v srv').
  - intros Hset. by rewrite (Redis_setForever_run w c Hc key value v srv').
  - intros Hguard Hdel. by rewrite (Redis_expired_run w c Hc key value ttl v srv').
Qed.

Lemma set_returns_boolean_witness :
  (result_of (Redis.set "k" (ZString "v") TtlNull
                        (redis_world (connected_adapter "ph-reds-") multi_server))
   = Some false /\
   result_of (Redis.setForever "k" (ZString "v")
                               (redis_world (connected_adapter "ph-reds-") multi_server))
   = Some false) /\
  (ttl_is_expired_integer (TtlInt 0) = true /\
   result_of (Redis.set "k" (ZString "v") (TtlInt 0)
                        (redis_world (connected_adapter "ph-reds-") multi_server))
   = Some true).
Proof.
  split.
  - destruct (set_returns_boolean RedisServer scripted_client
                (redis_world (connected_adapter "ph-reds-") multi_server)
                (mkConnection "ph-reds-" SERIALIZER_NONE) "k" (ZString "v") TtlNull
                (ZObject "Redis") multi_server eq_refl)
      as (Hset & Hforever & _).
    split; [exact (Hset eq_refl eq_refl) | exact (Hforever eq_refl)].
  - destruct (set_returns_boolean RedisServer scripted_client
                (redis_world (connected_adapter "ph-reds-") multi_server)
                (mkConnection "ph-reds-" SERIALIZER_NONE) "k" (ZString "v") (TtlInt 0)
                (ZObject "Redis") multi_server eq_refl)
      as (_ & _ & Hexpired).
    split; [reflexivity | exact (Hexpired eq_refl eq_refl)].
Defined.

(** * Further properties of the adapters *)

(** ** Arithmetic of the counters *)

Lemma wrap64_small (n : Z) : - 2 ^ 63 <= n < 2 ^ 63 -> wrap64 n = n.
Proof.
  intros Hn. unfold wrap64.
  rewrite Z.mod_small; [lia|].
  change (2 ^ 64) with (2 * 2 ^ 63). lia.
Qed.

Lemma wrap64_period (n q : Z) : wrap64 (n + q * 2 ^ 64) = wrap64 n.
Proof.
  unfold wrap64.
  replace (n + q * 2 ^ 64 + 2 ^ 63) with (n + 2 ^ 63 + q * 2 ^ 64) by lia.
  by rewrite Z.mod_add.
Qed.

Lemma wrap64_quotient (n : Z) : exists q, wrap64 n = n + q * 2 ^ 64.
Proof.
  exists (- ((n + 2 ^ 63) / 2 ^ 64)). unfold wrap64.
  rewrite Z.mod_eq by done. lia.
Qed.

Lemma wrap64_back (m n : Z) :
  - 2 ^ 63 <= m < 2 ^ 63 -> wrap64 (wrap64 (m + n) + wrap64 (- n)) = m.
Proof.
  intros Hm.
  destruct (wrap64_quotient (m + n)) as [q1 ->].
  destruct (wrap64_quotient (- n)) as [q2 ->].
  replace (m + n + q1 * 2 ^ 64 + (- n + q2 * 2 ^ 64)) with (m + (q1 + q2) * 2 ^ 64) by lia.
  rewrite wrap64_period. by apply wrap64_small.
Qed.

(** ** More runs of the APCu adapter *)

Section ApcuMoreRuns.
Variable this : AbstractAdapter.
Variable key : string.

Let stored := getPrefixedKey this key.
Let et := eventType this.

Lemma Apcu_doGet_run (w : World ApcuCache) :
  Apcu.doGet this key w =
  Ok (match backend w !! stored with
      | Some e => entry_value e
      | None => ZBool false
      end) w.
Proof. reflexivity. Qed.

Lemma Apcu_increment_fresh (n : Z) (w : World ApcuCache) :
  backend w !! stored = None ->
  Apcu.increment this key n w =
  Ok (ZLong n)
     (mkWorld (<[stored := mkEntry (ZLong n) 0]> (backend w))
              (fired w ++ notified et "Increment" key)).
Proof.
  intros Hnone.
  unfold Apcu.increment, bind, fire, Apcu.phpApcuInc, apcu_inc, bind,
    get_backend, put_backend, ret.
  cbn. fold stored. rewrite Hnone. cbn. by rewrite <- app_assoc.
Qed.

Lemma Apcu_increment_long (n m ttl : Z) (w : World ApcuCache) :
  backend w !! stored = Some (mkEntry (ZLong m) ttl) ->
  Apcu.increment this key n w =
  Ok (ZLong (wrap64 (m + n)))
     (mkWorld (<[stored := mkEntry (ZLong (wrap64 (m + n))) ttl]> (backend w))
              (fired w ++ notified et "Increment" key)).
Proof.
  intros Hsome.
  unfold Apcu.increment, bind, fire, Apcu.phpApcuInc, apcu_inc, bind,
    get_backend, put_backend, ret.
  cbn. fold stored. rewrite Hsome. cbn. by rewrite <- app_assoc.
Qed.

Lemma Apcu_increment_other (n : Z) (e : ApcuEntry) (w : World ApcuCache) :
  backend w !! stored = Some e ->
  (forall m, entry_value e <> ZLong m) ->
  Apcu.increment this key n w =
  Ok (ZBool false)
     (mkWorld (backend w) (fired w ++ notified et "Increment" key)).
Proof.
  intros Hsome Hother.
  unfold Apcu.increment, bind, fire, Apcu.phpApcuInc, apcu_inc, bind,
    get_backend, put_backend, ret.
  cbn. fold stored. rewrite Hsome.
  destruct e as [[| | m | | |] ttl]; cbn; try by rewrite <- app_assoc.
  by destruct (Hother m).
Qed.

Lemma Apcu_decrement_fresh (n : Z) (w : World ApcuCache) :
  backend w !! stored = None ->
  Apcu.decrement this key n w =
  Ok (ZLong (wrap64 (- n)))
     (mkWorld (<[stored := mkEntry (ZLong (wrap64 (- n))) 0]> (backend w))
              (fired w ++ notified et "Decrement" key)).
Proof.
  intros Hnone.
  unfold Apcu.decrement, bind, fire, Apcu.phpApcuDec, apcu_dec, apcu_inc, bind,
    get_backend, put_backend, ret.
  cbn. fold stored. rewrite Hnone. cbn. by rewrite <- app_assoc.
Qed.

Lemma Apcu_decrement_long (n m ttl : Z) (w : World ApcuCache) :
  backend w !! stored = Some (mkEntry (ZLong m) ttl) ->
  Apcu.decrement this key n w =
  Ok (ZLong (wrap64 (m + wrap64 (- n))))
     (mkWorld (<[stored := mkEntry (ZLong (wrap64 (m + wrap64 (- n)))) ttl]> (backend w))
              (fired w ++ notified et "Decrement" key)).
Proof.
  intros Hsome.
  unfold Apcu.decrement, bind, fire, Apcu.phpApcuDec, apcu_dec, apcu_inc, bind,
    get_backend, put_backend, ret.
  cbn. fold stored. rewrite Hsome. cbn. by rewrite <- app_assoc.
Qed.

End ApcuMoreRuns.

(** ** Storing, reading and deleting on APCu *)

(** X1: after a [set] that stores, the key is there: [has] is true,
    [doGet] gives back the payload that was stored, the entry carries the
    resolved ttl, and no other stored key has changed. *)
Theorem Apcu_stored_entry_is_read_back (this : AbstractAdapter) (key : string)
        (value : zval) (ttl : Ttl) (w : World ApcuCache) :
  ttl_is_expired_integer ttl = false ->
  exists w',
    Apcu.set this key value ttl w = Ok true w' /\
    result_of (Apcu.has this key w') = Some true /\
    result_of (Apcu.doGet this key w') = Some (getSerializedData this value) /\
    backend w' !! getPrefixedKey this key
    = Some (mkEntry (getSerializedData this value) (getTtl this ttl)) /\
    forall k, k <> getPrefixedKey this key -> backend w' !! k = backend w !! k.
Proof.
  intros Hguard. eexists. split; [by apply Apcu_store_run|].
  rewrite Apcu_has_run, Apcu_doGet_run. cbn. rewrite lookup_insert_eq.
  repeat split; try done.
  intros k Hk. by rewrite lookup_insert_ne.
Qed.

Lemma Apcu_stored_entry_is_read_back_witness :
  ttl_is_expired_integer (TtlInt 60) = false /\
  exists w',
    Apcu.set (plain_adapter "ph-apcu-") "k" (ZString "v") (TtlInt 60) (apcu_world sample_cache)
    = Ok true w' /\
    result_of (Apcu.doGet (plain_adapter "ph-apcu-") "k" w') = Some (ZString "v").
Proof.
  split; [reflexivity|].
  destruct (Apcu_stored_entry_is_read_back (plain_adapter "ph-apcu-") "k" (ZString "v")
              (TtlInt 60) (apcu_world sample_cache) eq_refl)
    as (w' & Hset & _ & Hget & _).
  exists w'. split; [exact Hset | exact Hget].
Defined.

(** X2: the last write wins.  Two storing [set]s of one key leave the cache
    exactly as the second one alone would. *)
Theorem Apcu_last_write_wins (this : AbstractAdapter) (key : string)
        (v1 v2 : zval) (t1 t2 : Ttl) (w : World ApcuCache) :
  ttl_is_expired_integer t1 = false ->
  ttl_is_expired_integer t2 = false ->
  backend_after ((Apcu.set this key v1 t1 ;; Apcu.set this key v2 t2) w)
  = backend_after (Apcu.set this key v2 t2 w).
Proof.
  intros H1 H2. unfold bind. rewrite !Apcu_store_run by done.
  cbn. by rewrite insert_insert_eq.
Qed.

Lemma Apcu_last_write_wins_witness :
  backend_after ((Apcu.set (plain_adapter "ph-apcu-") "k" (ZString "old") TtlNull ;;
                  Apcu.set (plain_adapter "ph-apcu-") "k" (ZString "new") (TtlInt 5))
                   (apcu_world ∅))
  = backend_after (Apcu.set (plain_adapter "ph-apcu-") "k" (ZString "new") (TtlInt 5)
                            (apcu_world ∅)).
Proof.
  exact (Apcu_last_write_wins (plain_adapter "ph-apcu-") "k" (ZString "old") (ZString "new")
           TtlNull (TtlInt 5) (apcu_world ∅) eq_refl eq_refl).
Defined.

(** X3: a second [delete] of the same key returns false and changes
    nothing more: the cache after two deletes is the cache after one. *)
Theorem Apcu_delete_twice (this : AbstractAdapter) (key : string) (w : World ApcuCache) :
  result_of ((Apcu.delete this key ;; Apcu.delete this key) w) = Some false /\
  backend_after ((Apcu.delete this key ;; Apcu.delete this key) w)
  = backend_after (Apcu.delete this key w).
Proof.
  unfold bind. rewrite !Apcu_delete_run. cbn.
  rewrite lookup_delete_eq. split; [done|].
  by rewrite delete_delete_eq.
Qed.

(** X4: a storing [set] followed by [delete] of the same key returns true
    and leaves the cache without the key; when the key was not there
    before, the cache is back to what it was. *)
Theorem Apcu_set_then_delete (this : AbstractAdapter) (key : string) (value : zval)
        (ttl : Ttl) (w : World ApcuCache) :
  ttl_is_expired_integer ttl = false ->
  result_of ((Apcu.set this key value ttl ;; Apcu.delete this key) w) = Some true /\
  backend_after ((Apcu.set this key value ttl ;; Apcu.delete this key) w)
  = Some (base.delete (getPrefixedKey this key) (backend w)) /\
  (backend w !! getPrefixedKey this key = None ->
   backend_after ((Apcu.set this key value ttl ;; Apcu.delete this key) w)
   = Some (backend w)).
Proof.
  intros Hguard. unfold bind. rewrite Apcu_store_run by done.
  rewrite Apcu_delete_run. cbn. rewrite lookup_insert_eq, delete_insert_eq.
  repeat split; try done.
  intros Hnone. by rewrite delete_id.
Qed.

Lemma Apcu_set_then_delete_witness :
  ttl_is_expired_integer TtlNull = false /\
  sample_cache !! getPrefixedKey (plain_adapter "ph-apcu-") "fresh" = None /\
  backend_after ((Apcu.set (plain_adapter "ph-apcu-") "fresh" (ZString "v") TtlNull ;;
                  Apcu.delete (plain_adapter "ph-apcu-") "fresh") (apcu_world sample_cache))
  = Some sample_cache.
Proof.
  split; [reflexivity|]. split; [reflexivity|].
  destruct (Apcu_set_then_delete (plain_adapter "ph-apcu-") "fresh" (ZString "v") TtlNull
              (apcu_world sample_cache) eq_refl)
    as (_ & _ & Hback).
  exact (Hback eq_refl).
Defined.

(** X5: [setForever] always returns true and stores the payload with a
    time-to-live of [0], which never expires, whatever lifetime the
    adapter is configured with and whatever was stored before; [has] is
    true afterwards and no other stored key has changed. *)
Theorem Apcu_setForever_stores_without_expiry (this : AbstractAdapter) (key : string)
        (value : zval) (w : World ApcuCache) :
  exists w',
    Apcu.setForever this key value w = Ok true w' /\
    backend w' !! getPrefixedKey this key
    = Some (mkEntry (getSerializedData this value) 0) /\
    result_of (Apcu.has this key w') = Some true /\
    forall k, k <> getPrefixedKey this key -> backend w' !! k = backend w !! k.
Proof.
  eexists. split; [apply Apcu_setForever_run|].
  rewrite Apcu_has_run. cbn. rewrite lookup_insert_eq.
  repeat split; try done.
  intros k Hk. by rewrite lookup_insert_ne.
Qed.

(** X6: two adapters on one cache see each other's entries exactly when
    their stored keys coincide: after a storing [set] through one adapter,
    [has] through the other is true if prefix and key concatenate to the
    same stored key, and is what it was before otherwise. *)
Theorem Apcu_adapters_meet_on_stored_keys (a b : AbstractAdapter) (k k' : string)
        (value : zval) (ttl : Ttl) (w : World ApcuCache) :
  ttl_is_expired_integer ttl = false ->
  result_of ((Apcu.set a k value ttl ;; Apcu.has b k') w)
  = if String.eqb (getPrefixedKey a k) (getPrefixedKey b k') then Some true
    else result_of (Apcu.has b k' w).
Proof.
  intros Hguard. unfold bind. rewrite Apcu_store_run by done.
  rewrite !Apcu_has_run. cbn.
  destruct (String.eqb_spec (getPrefixedKey a k) (getPrefixedKey b k')) as [Heq|Hne].
  - by rewrite Heq, lookup_insert_eq.
  - by rewrite lookup_insert_ne.
Qed.

Lemma Apcu_adapters_meet_on_stored_keys_witness :
  ttl_is_expired_integer TtlNull = false /\
  result_of ((Apcu.set (plain_adapter "a") "bc" (ZString "v") TtlNull ;;
              Apcu.has (plain_adapter "ab") "c") (apcu_world ∅))
  = Some true.
Proof.
  split; [reflexivity|].
  exact (Apcu_adapters_meet_on_stored_keys (plain_adapter "a") (plain_adapter "ab") "bc" "c"
           (ZString "v") TtlNull (apcu_world ∅) eq_refl).
Defined.

(** ** Counters on APCu *)

(** X7: on a key with no entry, [increment] creates the entry holding the
    step and returns the step, and [decrement] creates it holding the
    negated step; the key is there afterwards. *)
Theorem Apcu_counter_on_fresh_key (this : AbstractAdapter) (key : string) (n : Z)
        (w : World ApcuCache) :
  backend w !! getPrefixedKey this key = None ->
  - 2 ^ 63 < n < 2 ^ 63 ->
  (exists w',
      Apcu.increment this key n w = Ok (ZLong n) w' /\
      result_of (Apcu.has this key w') = Some true /\
      result_of (Apcu.doGet this key w') = Some (ZLong n)) /\
  (exists w',
      Apcu.decrement this key n w = Ok (ZLong (- n)) w' /\
      result_of (Apcu.has this key w') = Some true /\
      result_of (Apcu.doGet this key w') = Some (ZLong (- n))).
Proof.
  intros Hnone Hn. split; eexists.
  - split; [by apply Apcu_increment_fresh|].
    rewrite Apcu_has_run, Apcu_doGet_run. cbn. by rewrite lookup_insert_eq.
  - rewrite Apcu_decrement_fresh by done.
    rewrite wrap64_small by lia. split; [reflexivity|].
    rewrite Apcu_has_run, Apcu_doGet_run. cbn. by rewrite lookup_insert_eq.
Qed.

Lemma Apcu_counter_on_fresh_key_witness :
  (∅ : ApcuCache) !! getPrefixedKey (plain_adapter "ph-apcu-") "hits" = None /\
  - 2 ^ 63 < 5 < 2 ^ 63 /\
  exists w',
    Apcu.increment (plain_adapter "ph-apcu-") "hits" 5 (apcu_world ∅) = Ok (ZLong 5) w'.
Proof.
  assert (Hn : - 2 ^ 63 < 5 < 2 ^ 63) by (split; reflexivity).
  assert (Hnone : (∅ : ApcuCache) !! getPrefixedKey (plain_adapter "ph-apcu-") "hits" = None)
    by reflexivity.
  split; [exact Hnone|]. split; [exact Hn|].
  destruct (Apcu_counter_on_fresh_key (plain_adapter "ph-apcu-") "hits" 5 (apcu_world ∅)
              Hnone Hn)
    as ((w' & Hinc & _) & _).
  exists w'. exact Hinc.
Defined.

(** X8: on an integer entry, [increment] by a step followed by
    [decrement] by the same step returns the original number and leaves
    the cache as it was, also when the sum in between wraps around the
    64-bit range. *)
Theorem Apcu_increment_then_decrement (this : AbstractAdapter) (key : string)
        (m n ttl : Z) (w : World ApcuCache) :
  backend w !! getPrefixedKey this key = Some (mkEntry (ZLong m) ttl) ->
  - 2 ^ 63 <= m < 2 ^ 63 ->
  result_of ((Apcu.increment this key n ;; Apcu.decrement this key n) w) = Some (ZLong m) /\
  backend_after ((Apcu.increment this key n ;; Apcu.decrement this key n) w)
  = Some (backend w).
Proof.
  intros Hentry Hm. unfold bind.
  rewrite (Apcu_increment_long this key n m ttl) by done.
  rewrite (Apcu_decrement_long this key n (wrap64 (m + n)) ttl)
    by (cbn; by rewrite lookup_insert_eq).
  cbn. rewrite wrap64_back by done. split; [done|].
  by rewrite insert_insert_eq, insert_id.
Qed.

Lemma Apcu_increment_then_decrement_witness :
  (<["ph-apcu-n" := mkEntry (ZLong (2 ^ 63 - 1)) 0]> ∅ : ApcuCache)
    !! getPrefixedKey (plain_adapter "ph-apcu-") "n"
  = Some (mkEntry (ZLong (2 ^ 63 - 1)) 0) /\
  - 2 ^ 63 <= 2 ^ 63 - 1 < 2 ^ 63 /\
  result_of (Apcu.increment (plain_adapter "ph-apcu-") "n" 1
               (apcu_world (<["ph-apcu-n" := mkEntry (ZLong (2 ^ 63 - 1)) 0]> ∅)))
  = Some (ZLong (- 2 ^ 63)) /\
  result_of ((Apcu.increment (plain_adapter "ph-apcu-") "n" 1 ;;
              Apcu.decrement (plain_adapter "ph-apcu-") "n" 1)
               (apcu_world (<["ph-apcu-n" := mkEntry (ZLong (2 ^ 63 - 1)) 0]> ∅)))
  = Some (ZLong (2 ^ 63 - 1)).
Proof.
  assert (Hm : - 2 ^ 63 <= 2 ^ 63 - 1 < 2 ^ 63) by (split; [discriminate | reflexivity]).
  assert (Hentry :
            (<["ph-apcu-n" := mkEntry (ZLong (2 ^ 63 - 1)) 0]> ∅ : ApcuCache)
              !! getPrefixedKey (plain_adapter "ph-apcu-") "n"
            = Some (mkEntry (ZLong (2 ^ 63 - 1)) 0))
    by apply lookup_insert_eq.
  split; [exact Hentry|]. split; [exact Hm|]. split; [vm_compute; reflexivity|].
  destruct (Apcu_increment_then_decrement (plain_adapter "ph-apcu-") "n" (2 ^ 63 - 1) 1 0
              (apcu_world (<["ph-apcu-n" := mkEntry (ZLong (2 ^ 63 - 1)) 0]> ∅))
              Hentry Hm)
    as (Hres & _).
  exact Hres.
Defined.

(** X9: on an entry that does not hold an integer, [increment] returns
    false, uncast, and leaves the cache untouched, while still firing its
    two notifications. *)
Theorem Apcu_increment_on_non_integer (this : AbstractAdapter) (key : string) (n : Z)
        (e : ApcuEntry) (w : World ApcuCache) :
  backend w !! getPrefixedKey this key = Some e ->
  (forall m, entry_value e <> ZLong m) ->
  result_of (Apcu.increment this key n w) = Some (ZBool false) /\
  backend_after (Apcu.increment this key n w) = Some (backend w) /\
  events_of (Apcu.increment this key n w)
  = Some (fired w ++ notified (eventType this) "Increment" key)%list.
Proof.
  intros Hentry Hother.
  by rewrite (Apcu_increment_other this key n e w Hentry Hother).
Qed.

Lemma Apcu_increment_on_non_integer_witness :
  sample_cache !! getPrefixedKey (plain_adapter "ph-apcu-") "k1" = Some (plain_entry "a") /\
  result_of (Apcu.increment (plain_adapter "ph-apcu-") "k1" 1 (apcu_world sample_cache))
  = Some (ZBool false).
Proof.
  assert (Hentry : sample_cache !! getPrefixedKey (plain_adapter "ph-apcu-") "k1"
                   = Some (plain_entry "a")) by reflexivity.
  split; [exact Hentry|].
  destruct (Apcu_increment_on_non_integer (plain_adapter "ph-apcu-") "k1" 1
              (plain_entry "a") (apcu_world sample_cache) Hentry)
    as (Hres & _).
  - intros m. discriminate.
  - exact Hres.
Defined.

(** ** Listing keys on APCu *)

Lemma append_empty_r (a : string) : a ++ "" = a.
Proof.
  induction a as [|c a IH]; [done|].
  by rewrite append_String, IH.
Qed.

Lemma starts_with_shorter (k a b : string) :
  starts_with k (a ++ b) = true -> starts_with k a = true.
Proof.
  revert k. induction a as [|c a IH]; intros k; [done|].
  rewrite append_String. simpl. destruct k as [|c' k']; [done|].
  intros [Hc Hk]%andb_true_iff. rewrite Hc. simpl. by apply IH.
Qed.

(** X10: right after [clear], [getKeys] lists nothing, for every
    sub-prefix (prefix and sub-prefix without special characters). *)
Theorem Apcu_clear_then_getKeys (this : AbstractAdapter) (p : string)
        (w : World ApcuCache) :
  pcre_plain (prefix this ++ p) = true ->
  result_of ((Apcu.clear this ;; Apcu.getKeys this p) w) = Some [].
Proof.
  intros Hplain.
  assert (Hprefix : pcre_plain (prefix this) = true).
  { rewrite pcre_plain_app in Hplain. by apply andb_true_iff in Hplain as [? _]. }
  destruct (clear_compiled this _ w (pcre_compile_plain _ Hprefix)) as (w' & Hclear & _ & Hst).
  destruct (getKeys_plain_run this p w' Hplain) as (ks & Hkeys & _ & Hin).
  unfold bind. rewrite Hclear, Hkeys. cbn. f_equal.
  apply elem_of_nil_inv. intros k [[e He] Hk]%Hin.
  rewrite Hst, pcre_match_plain, (starts_with_shorter k _ p Hk) in He. done.
Qed.

Lemma Apcu_clear_then_getKeys_witness :
  pcre_plain ("ph-apcu-" ++ "k") = true /\
  result_of ((Apcu.clear (plain_adapter "ph-apcu-") ;;
              Apcu.getKeys (plain_adapter "ph-apcu-") "k") (apcu_world sample_cache))
  = Some [].
Proof.
  split; [reflexivity|].
  exact (Apcu_clear_then_getKeys (plain_adapter "ph-apcu-") "k" (apcu_world sample_cache)
           eq_refl).
Defined.

(** X11: every key [getKeys] lists for a sub-prefix is among the keys it
    lists for the empty sub-prefix (prefix and sub-prefix without special
    characters). *)
Theorem Apcu_getKeys_narrows (this : AbstractAdapter) (p : string) (w : World ApcuCache) :
  pcre_plain (prefix this ++ p) = true ->
  exists ks all,
    result_of (Apcu.getKeys this p w) = Some ks /\
    result_of (Apcu.getKeys this "" w) = Some all /\
    forall k, k ∈ ks -> k ∈ all.
Proof.
  intros Hplain.
  assert (Hprefix : pcre_plain (prefix this ++ "") = true).
  { rewrite append_empty_r. rewrite pcre_plain_app in Hplain.
    by apply andb_true_iff in Hplain as [? _]. }
  destruct (getKeys_plain_run this p w Hplain) as (ks & Hks & _ & Hin).
  destruct (getKeys_plain_run this "" w Hprefix) as (all & Hall & _ & Hin').
  exists ks, all. rewrite Hks, Hall. split; [done|]. split; [done|].
  intros k [He Hk]%Hin. apply Hin'. split; [done|].
  rewrite append_empty_r. by apply (starts_with_shorter k _ p).
Qed.

Lemma Apcu_getKeys_narrows_witness :
  pcre_plain ("ph-apcu-" ++ "k") = true /\
  exists ks all,
    result_of (Apcu.getKeys (plain_adapter "ph-apcu-") "k" (apcu_world sample_cache)) = Some ks /\
    result_of (Apcu.getKeys (plain_adapter "ph-apcu-") "" (apcu_world sample_cache)) = Some all /\
    forall k, k ∈ ks -> k ∈ all.
Proof.
  split; [reflexivity|].
  exact (Apcu_getKeys_narrows (plain_adapter "ph-apcu-") "k" (apcu_world sample_cache) eq_refl).
Defined.

(** X12: a key that was just stored is listed by [getKeys] exactly when
    it begins with the sub-prefix, under its stored name (prefix and
    sub-prefix without special characters). *)
Theorem Apcu_set_then_getKeys (this : AbstractAdapter) (key p : string) (value : zval)
        (ttl : Ttl) (w : World ApcuCache) :
  ttl_is_expired_integer ttl = false ->
  pcre_plain (prefix this ++ p) = true ->
  exists ks,
    result_of ((Apcu.set this key value ttl ;; Apcu.getKeys this p) w) = Some ks /\
    (getPrefixedKey this key ∈ ks <-> starts_with key p = true).
Proof.
  intros Hguard Hplain. unfold bind. rewrite Apcu_store_run by done.
  match goal with |- context [Apcu.getKeys this p ?w0] => set (w' := w0) end.
  destruct (getKeys_plain_run this p w' Hplain) as (ks & Hks & _ & Hin).
  exists ks. rewrite Hks. split; [done|].
  rewrite Hin. subst w'. cbn [backend]. unfold getPrefixedKey.
  rewrite starts_with_prefixed, lookup_insert_eq. split; [by intros [_ ?]|eauto].
Qed.

Lemma Apcu_set_then_getKeys_witness :
  ttl_is_expired_integer TtlNull = false /\
  pcre_plain ("ph-apcu-" ++ "us") = true /\
  exists ks,
    result_of ((Apcu.set (plain_adapter "ph-apcu-") "user" (ZString "v") TtlNull ;;
                Apcu.getKeys (plain_adapter "ph-apcu-") "us") (apcu_world ∅)) = Some ks /\
    "ph-apcu-user" ∈ ks.
Proof.
  split; [reflexivity|]. split; [reflexivity|].
  destruct (Apcu_set_then_getKeys (plain_adapter "ph-apcu-") "user" "us" (ZString "v")
              TtlNull (apcu_world ∅) eq_refl eq_refl)
    as (ks & Hks & Hin).
  exists ks. split; [exact Hks|]. apply Hin. reflexivity.
Defined.

(** ** The session handler over the APCu adapter *)

(** X13: for a session id that PHP counts as empty — the empty string or
    ["0"] — [destroy] reports success without calling the adapter at all,
    whatever adapter it holds: nothing is deleted and nothing is fired.
    Over APCu the session written under such an id is therefore still
    there after [destroy]. *)
Theorem Session_destroy_skips_empty_id (this : AbstractAdapter) (id : string) (data : zval)
        (w : World ApcuCache) :
  php_empty (ZString id) = true ->
  (forall (S : Type) (adapter : AdapterInterface S) (w0 : World S),
      Session.destroy adapter id w0 = Ok true w0) /\
  result_of ((Session.write (Apcu_interface this) id data ;;
              Session.destroy (Apcu_interface this) id ;;
              Apcu.has this id) w)
  = Some true.
Proof.
  intros Hid.
  assert (Hskip : forall (S : Type) (adapter : AdapterInterface S) (w0 : World S),
             Session.destroy adapter id w0 = Ok true w0).
  { intros S adapter w0. unfold Session.destroy. by rewrite Hid. }
  split; [exact Hskip|].
  unfold bind, Session.write. cbn [Apcu_interface adapter_set].
  rewrite (Apcu_store_run this id data TtlNull w eq_refl).
  rewrite Hskip, Apcu_has_run. cbn. by rewrite lookup_insert_eq.
Qed.

Lemma Session_destroy_skips_empty_id_witness :
  php_empty (ZString "0") = true /\
  result_of ((Session.write (Apcu_interface (plain_adapter "ph-apcu-")) "0" (ZString "data") ;;
              Session.destroy (Apcu_interface (plain_adapter "ph-apcu-")) "0" ;;
              Apcu.has (plain_adapter "ph-apcu-") "0") (apcu_world ∅))
  = Some true.
Proof.
  split; [reflexivity|].
  destruct (Session_destroy_skips_empty_id (plain_adapter "ph-apcu-") "0" (ZString "data")
              (apcu_world ∅) eq_refl)
    as (_ & Hstill).
  exact Hstill.
Defined.

Lemma destroy_on_Apcu_run (this : AbstractAdapter) (id : string) (w : World ApcuCache) :
  exists w',
    Session.destroy (Apcu_interface this) id w = Ok true w' /\
    backend w' = (if php_empty (ZString id) then backend w
                  else base.delete (getPrefixedKey this id) (backend w)) /\
    (php_empty (ZString id) = false -> result_of (Apcu.has this id w') = Some false).
Proof.
  unfold Session.destroy.
  destruct (php_empty (ZString id)) eqn:Hid; cbn [negb].
  - exists w. by repeat split.
  - cbn [Apcu_interface adapter_has adapter_delete].
    unfold bind. rewrite Apcu_has_run. cbv beta iota.
    destruct (backend w !! getPrefixedKey this id) as [e|] eqn:He.
    + rewrite bool_decide_eq_true_2 by eauto.
      rewrite Apcu_delete_run. cbn [backend]. rewrite He.
      rewrite bool_decide_eq_true_2 by eauto.
      eexists. split; [reflexivity|].
      split; [done|]. intros _. rewrite Apcu_has_run. cbn [backend result_of].
      rewrite lookup_delete_eq. by rewrite bool_decide_eq_false_2 by (by intros [? ?]).
    + rewrite bool_decide_eq_false_2 by (by intros [? ?]).
      eexists. split; [reflexivity|]. cbn [backend]. split; [by rewrite delete_id|].
      intros _. rewrite Apcu_has_run. cbn [backend result_of]. rewrite He.
      by rewrite bool_decide_eq_false_2 by (by intros [? ?]).
Qed.

(** X14: over the APCu adapter [destroy] always returns true, also for a
    session that does not exist; for a non-empty id the entry of the
    session is gone afterwards and no other entry has changed. *)
Theorem Session_destroy_on_Apcu (this : AbstractAdapter) (id : string)
        (w : World ApcuCache) :
  exists w',
    Session.destroy (Apcu_interface this) id w = Ok true w' /\
    backend w' = (if php_empty (ZString id) then backend w
                  else base.delete (getPrefixedKey this id) (backend w)) /\
    (php_empty (ZString id) = false -> result_of (Apcu.has this id w') = Some false).
Proof. exact (destroy_on_Apcu_run this id w). Qed.

Lemma Session_destroy_on_Apcu_witness :
  php_empty (ZString "k1") = false /\
  exists w',
    Session.destroy (Apcu_interface (plain_adapter "ph-apcu-")) "k1" (apcu_world sample_cache)
    = Ok true w' /\
    result_of (Apcu.has (plain_adapter "ph-apcu-") "k1" w') = Some false.
Proof.
  split; [reflexivity|].
  destruct (Session_destroy_on_Apcu (plain_adapter "ph-apcu-") "k1" (apcu_world sample_cache))
    as (w' & Hrun & _ & Hhas).
  exists w'. split; [exact Hrun | exact (Hhas eq_refl)].
Defined.

(** X15: [write] hands the data to the adapter's [set] with no ttl, so
    over APCu it returns true and stores the entry under the adapter's
    own lifetime; a [destroy] of the same non-empty id right after it
    returns true and removes the entry again. *)
Theorem Session_write_then_destroy (this : AbstractAdapter) (id : string) (data : zval)
        (w : World ApcuCache) :
  php_empty (ZString id) = false ->
  (exists w',
      Session.write (Apcu_interface this) id data w = Ok true w' /\
      backend w' !! getPrefixedKey this id
      = Some (mkEntry (getSerializedData this data) (lifetime this))) /\
  result_of ((Session.write (Apcu_interface this) id data ;;
              Session.destroy (Apcu_interface this) id) w) = Some true /\
  backend_after ((Session.write (Apcu_interface this) id data ;;
                  Session.destroy (Apcu_interface this) id) w)
  = Some (base.delete (getPrefixedKey this id) (backend w)).
Proof.
  intros Hid.
  assert (Hwrite := Apcu_store_run this id data TtlNull w eq_refl).
  split.
  - eexists. split; [exact Hwrite|]. cbn. by rewrite lookup_insert_eq.
  - unfold bind, Session.write. cbn [Apcu_interface adapter_set]. rewrite Hwrite.
    match goal with |- context [Session.destroy _ id ?w0] =>
      destruct (destroy_on_Apcu_run this id w0) as (w' & -> & Hb & _)
    end.
    cbn. rewrite Hb, Hid. cbn. by rewrite delete_insert_eq.
Qed.

Lemma Session_write_then_destroy_witness :
  php_empty (ZString "sess1") = false /\
  backend_after ((Session.write (Apcu_interface (plain_adapter "ph-apcu-")) "sess1"
                                (ZString "data") ;;
                  Session.destroy (Apcu_interface (plain_adapter "ph-apcu-")) "sess1")
                   (apcu_world ∅))
  = Some (base.delete "ph-apcu-sess1" ∅).
Proof.
  split; [reflexivity|].
  destruct (Session_write_then_destroy (plain_adapter "ph-apcu-") "sess1" (ZString "data")
              (apcu_world ∅) eq_refl)
    as (_ & _ & Hback).
  exact Hback.
Defined.

(** ** The no-op serializer *)

(** X16: the [None] serializer is the identity in both directions, on
    values of every type: what [unserialize] is given is what [serialize]
    returns next, and feeding an object its own serialized form leaves
    it unchanged. *)
Theorem None_round_trip (this : NoneClass.None_) (v : zval) :
  NoneClass.serialize (NoneClass.unserialize this v) = v /\
  NoneClass.unserialize this (NoneClass.serialize this) = this.
Proof. split; [reflexivity|]. by destruct this. Qed.

(** ** The Redis connection: opening, reuse and failures *)

Section RedisConnection.
Context {R : Type} `{PhpRedis R}.
Implicit Types w : World (RedisState R).

Lemma setSerializer_keeps_prefix w w' connection c :
  Redis.setSerializer connection w = Ok c w' ->
  opt_prefix c = opt_prefix connection.
Proof.
  unfold Redis.setSerializer, bind, Redis.this, Redis.set_this, ret, throw.
  destruct (Redis.serializer_map !! _) as [code|]; cbn.
  - by intros [= <- _].
  - destruct (initSerializer (base (self (backend w)))); cbn; [discriminate|].
    by intros [= <- _].
Qed.


Lemma getAdapter_ok_inv w w' c :
  Redis.getAdapter w = Ok c w' ->
  adapter (self (backend w')) = Some c /\
  (adapter (self (backend w)) = None -> opt_prefix c = prefix (base (self (backend w)))).
Proof.
  intros Hget. destruct (adapter (self (backend w))) as [c0|] eqn:Hc.
  - rewrite (getAdapter_connected w c0 Hc) in Hget. injection Hget as <- <-.
    split; [done|]. discriminate.
  - rewrite getAdapter_first_use in Hget by done. unfold bind at 1 in Hget.
    destruct (Redis.setup new_Redis w) as [[] w1| |] eqn:Hs; try discriminate.
    apply setup_ok_inv in Hs as [srv1 ->].
    unfold bind at 1 in Hget.
    destruct (Redis.setSerializer _ _) as [c1 w2| |] eqn:Hser; try discriminate.
    apply setSerializer_keeps_prefix in Hser.
    cbn in Hget. injection Hget as <- <-. split; [done|]. intros _. exact Hser.
Qed.

End RedisConnection.

(** X17: the connection is opened once.  When [getAdapter] returns a
    connection, the adapter has stored it, a further [getAdapter] returns
    the same connection without touching the server, and — if this was
    the first use — the connection carries the adapter's prefix as its
    key prefix. *)
Theorem Redis_connection_is_opened_once
        (R : Type) (client : PhpRedis R) (w w' : World (RedisState R)) (c : Connection) :
  Redis.getAdapter w = Ok c w' ->
  adapter (self (backend w')) = Some c /\
  Redis.getAdapter w' = Ok c w' /\
  (adapter (self (backend w)) = None -> opt_prefix c = prefix (base (self (backend w)))).
Proof.
  intros Hget. destruct (getAdapter_ok_inv w w' c Hget) as [Hstored Hprefix].
  split; [done|]. split; [by apply getAdapter_connected | done].
Qed.

Lemma Redis_connection_is_opened_once_witness :
  exists w',
    Redis.getAdapter (redis_world (Redis.construct (plain_adapter "ph-reds-") default_options)
                                  (healthy_server sample_db))
    = Ok (mkConnection "ph-reds-" SERIALIZER_NONE) w' /\
    Redis.getAdapter w' = Ok (mkConnection "ph-reds-" SERIALIZER_NONE) w'.
Proof.
  eexists. split; [vm_compute; reflexivity|].
  apply (Redis_connection_is_opened_once RedisServer scripted_client
           (redis_world (Redis.construct (plain_adapter "ph-reds-") default_options)
                        (healthy_server sample_db))).
  vm_compute. reflexivity.
Defined.

(** X18: an exception raised by [select] is not turned into a storage
    exception.  When the connection is made, authentication passes, a
    database index above zero is configured and [select] raises, the first
    use of the adapter raises the client's own exception with its
    message. *)
Theorem Redis_select_exception_escapes
        (R : Type) (client : PhpRedis R) (w : World (RedisState R))
        (v : zval) (srv1 srv2 srv3 : R) (msg : string) :
  adapter (self (backend w)) = None ->
  Redis.connect_call (options (self (backend w))) (server (backend w)) = (Returns v, srv1) ->
  to_bool v = true ->
  Redis.auth_passes (options (self (backend w))) srv1 srv2 ->
  0 < index (options (self (backend w))) ->
  redis_select new_Redis (index (options (self (backend w)))) srv2 = (Raises msg, srv3) ->
  Redis.getAdapter w = Throw (RedisException msg) (with_server w srv3).
Proof.
  intros Hnone Hc Hv Ha Hi Hs.
  rewrite getAdapter_first_use by done. unfold bind at 1.
  unfold Redis.setup. unfold bind at 1. rewrite checkConnect_run. cbv zeta.
  rewrite Hc, Hv.
  unfold bind at 1. rewrite checkAuth_run. cbv zeta.
  rewrite self_with_server, server_with_server.
  assert (Hidx : (0 <? index (options (self (backend w)))) = true) by by apply Z.ltb_lt.
  destruct Ha as [[Ha ->] | [Ha Hr]]; rewrite Ha; [|rewrite Hr];
    cbv beta iota delta [not_identical_true];
    rewrite checkIndex_run; cbv zeta;
    rewrite ?self_with_server, ?server_with_server, Hidx, Hs; reflexivity.
Qed.

Lemma Redis_select_exception_escapes_witness :
  Redis.getAdapter (redis_world (Redis.construct (plain_adapter "ph-reds-") indexed_options)
                                broken_select_server)
  = Throw (RedisException "read error on connection")
          (redis_world (Redis.construct (plain_adapter "ph-reds-") indexed_options)
                       broken_select_server).
Proof.
  apply (Redis_select_exception_escapes RedisServer scripted_client
           (redis_world (Redis.construct (plain_adapter "ph-reds-") indexed_options)
                        broken_select_server)
           (ZBool true) broken_select_server broken_select_server broken_select_server
           "read error on connection").
  - reflexivity.
  - reflexivity.
  - reflexivity.
  - left. split; reflexivity.
  - reflexivity.
  - reflexivity.
Defined.

(** X19: with no credentials configured and a database index that is not
    above zero, setting the connection up is the [connect] call alone:
    [auth] and [select] are never sent, and the server is left as
    [connect] left it. *)
Theorem Redis_default_setup_only_connects
        (R : Type) (client : PhpRedis R) (w : World (RedisState R))
        (v : zval) (srv1 : R) :
  php_empty (auth (options (self (backend w)))) = true ->
  index (options (self (backend w))) <= 0 ->
  Redis.connect_call (options (self (backend w))) (server (backend w)) = (Returns v, srv1) ->
  to_bool v = true ->
  Redis.setup new_Redis w = Ok tt (with_server w srv1).
Proof.
  intros Ha Hi Hc Hv.
  unfold Redis.setup. unfold bind at 1. rewrite checkConnect_run. cbv zeta.
  rewrite Hc, Hv.
  unfold bind at 1. rewrite checkAuth_run. cbv zeta.
  rewrite self_with_server, server_with_server, Ha.
  rewrite checkIndex_run. cbv zeta. rewrite self_with_server.
  assert (Hidx : (0 <? index (options (self (backend w)))) = false) by (apply Z.ltb_ge; lia).
  by rewrite Hidx.
Qed.

Lemma Redis_default_setup_only_connects_witness :
  php_empty (auth default_options) = true /\
  index default_options <= 0 /\
  Redis.setup new_Redis
    (redis_world (Redis.construct (plain_adapter "ph-reds-") default_options)
                 (mkServer (Returns (ZBool true)) (Raises "auth must not be sent")
                           (Raises "select must not be sent") false ∅))
  = Ok tt (redis_world (Redis.construct (plain_adapter "ph-reds-") default_options)
                       (mkServer (Returns (ZBool true)) (Raises "auth must not be sent")
                                 (Raises "select must not be sent") false ∅)).
Proof.
  assert (Hi : index default_options <= 0) by (cbn; lia).
  split; [reflexivity|]. split; [exact Hi|].
  apply (Redis_default_setup_only_connects RedisServer scripted_client
           (redis_world (Redis.construct (plain_adapter "ph-reds-") default_options)
                        (mkServer (Returns (ZBool true)) (Raises "auth must not be sent")
                                  (Raises "select must not be sent") false ∅))
           (ZBool true)
           (mkServer (Returns (ZBool true)) (Raises "auth must not be sent")
                     (Raises "select must not be sent") false ∅)
           eq_refl Hi eq_refl eq_refl).
Defined.

(** ** Operations that do not complete on Redis *)

Ltac enter_operation :=
  unfold bind at 1; unfold Redis.this at 1;
  unfold bind at 1; unfold fire at 1; unfold bind at 1.




(** X21: on a connected adapter an exception raised by the client during
    an operation is not caught: it leaves the adapter as the client raised
    it, after the before-notification and without the after-notification
    ([setForever] and [clear] fire none). *)
Theorem Redis_client_exception_escapes
        (R : Type) (client : PhpRedis R) (w : World (RedisState R)) (c : Connection)
        (msg key : string) (n : Z) (value : zval) (ttl : Ttl) (srv' : R) :
  adapter (self (backend w)) = Some c ->
  (redis_exists c key (server (backend w)) = (Raises msg, srv') ->
   Redis.has key w
   = Throw (RedisException msg)
           (with_fired (with_server w srv')
              [((eventType (base (self (backend w))) ++ ":beforeHas")%string, key)])) /\
  (redis_del c key (server (backend w)) = (Raises msg, srv') ->
   Redis.delete key w
   = Throw (RedisException msg)
           (with_fired (with_server w srv')
              [((eventType (base (self (backend w))) ++ ":beforeDelete")%string, key)])) /\
  (redis_incrBy c key n (server (backend w)) = (Raises msg, srv') ->
   Redis.increment key n w
   = Throw (RedisException msg)
           (with_fired (with_server w srv')
              [((eventType (base (self (backend w))) ++ ":beforeIncrement")%string, key)])) /\
  (redis_decrBy c key n (server (backend w)) = (Raises msg, srv') ->
   Redis.decrement key n w
   = Throw (RedisException msg)
           (with_fired (with_server w srv')
              [((eventType (base (self (backend w))) ++ ":beforeDecrement")%string, key)])) /\
  (ttl_is_expired_integer ttl = false ->
   redis_set c key (getSerializedData (base (self (backend w))) value)
             (Some (getTtl (base (self (backend w))) ttl)) (server (backend w))
   = (Raises msg, srv') ->
   Redis.set key value ttl w
   = Throw (RedisException msg)
           (with_fired (with_server w srv')
              [((eventType (base (self (backend w))) ++ ":beforeSet")%string, key)])) /\
  (redis_set c key (getSerializedData (base (self (backend w))) value) None
             (server (backend w)) = (Raises msg, srv') ->
   Redis.setForever key value w = Throw (RedisException msg) (with_server w srv')) /\
  (redis_flushDB c (server (backend w)) = (Raises msg, srv') ->
   Redis.clear w = Throw (RedisException msg) (with_server w srv')).
Proof.
  intros Hc.
  assert (Hrun : forall (w0 : World (RedisState R)),
             backend w0 = backend w -> Redis.getAdapter w0 = Ok c w0).
  { intros w0 Hw0. apply getAdapter_connected. by rewrite Hw0. }
  repeat split; intros.
  - unfold Redis.has. enter_operation. rewrite Hrun by done.
    unfold bind at 1. by rewrite (call_raises _ _ msg srv').
  - unfold Redis.delete. enter_operation. rewrite Hrun by done.
    unfold bind at 1. by rewrite (call_raises _ _ msg srv').
  - unfold Redis.increment. enter_operation. rewrite Hrun by done.
    unfold bind at 1. by rewrite (call_raises _ _ msg srv').
  - unfold Redis.decrement. enter_operation. rewrite Hrun by done.
    unfold bind at 1. by rewrite (call_raises _ _ msg srv').
  - unfold Redis.set.
    unfold bind at 1; unfold Redis.this at 1; unfold bind at 1; unfold fire at 1.
    match goal with Hg : ttl_is_expired_integer ttl = false |- _ => rewrite Hg end.
    unfold bind at 1. rewrite Hrun by done.
    unfold bind at 1. unfold Redis.this at 1.
    unfold bind at 1. by rewrite (call_raises _ _ msg srv').
  - unfold Redis.setForever. unfold bind at 1. rewrite Hrun by done.
    unfold bind at 1. unfold Redis.this at 1.
    unfold bind at 1. by rewrite (call_raises _ _ msg srv').
  - unfold Redis.clear. unfold bind at 1. rewrite Hrun by done.
    by rewrite (call_raises _ _ msg srv').
Qed.

Lemma Redis_client_exception_escapes_witness :
  @Redis.delete unit lost_client "k" lost_world
  = Throw (RedisException "Connection lost")
          (with_fired lost_world [("storage:beforeDelete", "k")]) /\
  @Redis.setForever unit lost_client "k" (ZString "v") lost_world
  = Throw (RedisException "Connection lost") lost_world.
Proof.
  destruct (Redis_client_exception_escapes unit lost_client lost_world
              (mkConnection "ph-reds-" SERIALIZER_NONE) "Connection lost" "k" 1
              (ZString "v") TtlNull tt eq_refl)
    as (_ & Hdel & _ & _ & _ & Hforever & _).
  split; [exact (Hdel eq_refl) | exact (Hforever eq_refl)].
Defined.

(** ** The table of client codecs *)

(** X22: the names [setSerializer] hands over to the client are exactly
    [redis_none] and [redis_php], plus [redis_igbinary], [redis_msgpack]
    and [redis_json] on a build of the client that defines the matching
    constant; each selects its own codec, and no other name is in the
    table. *)
Theorem Redis_serializer_table
        (R : Type) (client : PhpRedis R) (name : string) (code : RedisSerializer) :
  Redis.serializer_map !! name = Some code <->
  (name = "redis_none" /\ code = SERIALIZER_NONE) \/
  (name = "redis_php" /\ code = SERIALIZER_PHP) \/
  (igbinary_defined = true /\ name = "redis_igbinary" /\ code = SERIALIZER_IGBINARY) \/
  (msgpack_defined = true /\ name = "redis_msgpack" /\ code = SERIALIZER_MSGPACK) \/
  (json_defined = true /\ name = "redis_json" /\ code = SERIALIZER_JSON).
Proof.
  unfold Redis.serializer_map.
  destruct igbinary_defined, msgpack_defined, json_defined; split.
  all: try (intros Hl;
            repeat (apply lookup_insert_Some in Hl as [[<- <-]|[_ Hl]];
                    [intuition congruence|]);
            by rewrite lookup_empty in Hl).
  all: intros [[-> ->]|[[-> ->]|[(Hd & -> & ->)|[(Hd & -> & ->)|(Hd & -> & ->)]]]];
    try discriminate Hd; reflexivity.
Qed.
